(** * Polygon operations of the segmentation editor (wasm/polygon_operations.c)

    A shallow embedding of the C kernel over IEEE-754 binary64 numbers.

    - [double] is Rocq's primitive [float]: binary64, round to nearest even,
      gradual underflow, one NaN.  Every arithmetic operation of the C code
      is one rounded operation here, in the order in which C evaluates it
      (WebAssembly has no wider registers and no fused multiply-add), so
      each definition evaluates to the number the compiled code produces.
      General facts go through [FloatAxioms] and [SpecFloat].
    - [int] is [Z].  For a [length] that fits an [int], every [int] that
      the code computes and uses lies between [-1] and [length]: nothing
      wraps around.
    - [Point*] is a [Buffer]: the list of the points the pointer designates.
      A read or a write outside the buffer is undefined behaviour in C, and
      so is a remainder by 0; here each is [None], and every function that
      reads memory returns an [option].
    - Output parameters ([double*]) are explicit slots: the function takes
      the slots' contents before the call and returns them after it.  The
      slots of one call are distinct objects, as at the call sites.
    - [malloc] is an argument of the function that calls it: what the
      allocator answers to a request of so many bytes, a null pointer
      included.  [size_t] is the 32-bit type of the WebAssembly target
      the file is compiled for. *)

From Stdlib Require Import ZArith Lia Bool List Floats.
From stdpp Require Import base option list.

Local Open Scope Z_scope.

(** ** Numbers *)

Module C.

(** [a > b], [a < b], [a <= b] and [a == b] on doubles: false as soon as
    one operand is a NaN; the two zeros compare equal. *)
Definition gt (a b : float) : bool := (b <? a)%float.
Definition lt (a b : float) : bool := (a <? b)%float.
Definition le (a b : float) : bool := (a <=? b)%float.
Definition eq (a b : float) : bool := (a =? b)%float.

(** [!=] on two [bool]s. *)
Definition bool_ne (a b : bool) : bool := xorb a b.

(** [a % b] on [int]s: the remainder of the division that truncates
    towards zero; undefined for a divisor 0. *)
Definition rem (a b : Z) : option Z :=
  if b =? 0 then None else Some (Z.rem a b).

(** [fmin] and [fmax] of <math.h> (C11 F.10.9): a NaN operand is treated
    as missing data, the other operand is returned.  On the two zeros the
    standard lets either be returned; every use below compares the result
    with [<=], which does not tell them apart. *)
Definition fmin (a b : float) : float :=
  if is_nan a then b else if is_nan b then a
  else if (a <? b)%float then a else b.

Definition fmax (a b : float) : float :=
  if is_nan a then b else if is_nan b then a
  else if (b <? a)%float then a else b.

(** [pow(b, 2)] of <math.h>.  The exponent is the literal [2] at each of
    its call sites, so only the square is modelled, as the correctly
    rounded product [b * b]: what the compiler emits for a constant
    exponent 2, and the value of every [pow] that rounds correctly, as
    IEEE 754 asks of it.  A library [pow] that does not round correctly
    can differ from it in the last place. *)
Definition pow2 (b : float) : float := (b * b)%float.

(** [sqrt] and [fabs] are the IEEE operations. *)
Definition sqrt (a : float) : float := PrimFloat.sqrt a.
Definition fabs (a : float) : float := PrimFloat.abs a.

End C.

(** ** Data *)

Module Point.
Record t : Set := mk { x : float ; y : float }.
End Point.

Abbreviation Point := Point.t.

(** The memory a [Point*] designates. *)
Abbreviation Buffer := (list Point).

(** [points[i]]: reading outside the buffer has no defined result. *)
Definition load (points : Buffer) (i : Z) : option Point :=
  if i <? 0 then None else points !! Z.to_nat i.

(** ** Point in polygon (lines 20-38) *)

(** The condition of line 29-30.  [&&] is lazy: the quotient is evaluated
    only when the first conjunct holds. *)
Definition intersect (x y : float) (pi pj : Point) : bool :=
  let xi := Point.x pi in
  let yi := Point.y pi in
  let xj := Point.x pj in
  let yj := Point.y pj in
  C.bool_ne (C.gt yi y) (C.gt yj y) &&
  C.lt x ((xj - xi) * (y - yi) / (yj - yi) + xi)%float.

(** The loop of line 23 with [n] iterations left, [i] and [j] the loop
    variables and [inside] the flag. *)
Fixpoint is_point_in_polygon_loop (x y : float) (points : Buffer)
    (n : nat) (i j : Z) (inside : bool) : option bool :=
  match n with
  | O => Some inside
  | S n' =>
      pi ← load points i;
      pj ← load points j;
      let inside := if intersect x y pi pj then negb inside else inside in
      is_point_in_polygon_loop x y points n' (i + 1) i inside
  end.

Definition is_point_in_polygon (x y : float) (points : Buffer) (length : Z)
    : option bool :=
  is_point_in_polygon_loop x y points (Z.to_nat length) 0 (length - 1) false.

(** ** Distance from a point to a segment (lines 42-68) *)

(** [sqrt(pow(ax - bx, 2) + pow(ay - by, 2))], the expression of lines 48,
    56, 59 and 67. *)
Definition euclidean (ax ay bx by_ : float) : float :=
  C.sqrt (C.pow2 (ax - bx) + C.pow2 (ay - by_))%float.

(** Line 44. *)
Definition segment_l2 (vx vy wx wy : float) : float :=
  (C.pow2 (vx - wx) + C.pow2 (vy - wy))%float.

(** Line 52, evaluated only after [l2 == 0] has failed. *)
Definition segment_t (px py vx vy wx wy l2 : float) : float :=
  (((px - vx) * (wx - vx) + (py - vy) * (wy - vy)) / l2)%float.

Definition distance_to_segment (px py vx vy wx wy : float) : float :=
  let l2 := segment_l2 vx vy wx wy in
  if C.eq l2 0 then euclidean px py vx vy
  else
    let t := segment_t px py vx vy wx wy l2 in
    if C.lt t 0 then euclidean px py vx vy
    else if C.gt t 1 then euclidean px py wx wy
    else
      let projx := (vx + t * (wx - vx))%float in
      let projy := (vy + t * (wy - vy))%float in
      euclidean px py projx projy.

(** ** Intersection of two segments (lines 74-113) *)

(** The contents of the two output slots [*ix] and [*iy]. *)
Definition Slots2 : Set := (float * float)%type.

Definition line_a (p1y p2y : float) : float := (p2y - p1y)%float.
Definition line_b (p1x p2x : float) : float := (p1x - p2x)%float.
Definition line_c (p1x p1y p2x p2y : float) : float :=
  (line_a p1y p2y * p1x + line_b p1x p2x * p1y)%float.

(** Line 89. *)
Definition determinant (p1x p1y p2x p2y p3x p3y p4x p4y : float) : float :=
  (line_a p1y p2y * line_b p3x p4x - line_a p3y p4y * line_b p1x p2x)%float.

(** Lines 96-97: the values stored through [ix] and [iy]. *)
Definition cramer (p1x p1y p2x p2y p3x p3y p4x p4y : float) : Slots2 :=
  let a1 := line_a p1y p2y in
  let b1 := line_b p1x p2x in
  let c1 := line_c p1x p1y p2x p2y in
  let a2 := line_a p3y p4y in
  let b2 := line_b p3x p4x in
  let c2 := line_c p3x p3y p4x p4y in
  let det := determinant p1x p1y p2x p2y p3x p3y p4x p4y in
  (((b2 * c1 - b1 * c2) / det)%float, ((a1 * c2 - a2 * c1) / det)%float).

(** Lines 100-102 and 104-106, for the segment from [(ax, ay)] to
    [(bx, by)] and the contents of the slots. *)
Definition onSegment (ax ay bx by_ : float) (s : Slots2) : bool :=
  C.le (C.fmin ax bx) (fst s) && C.le (fst s) (C.fmax ax bx) &&
  C.le (C.fmin ay by_) (snd s) && C.le (snd s) (C.fmax ay by_).

(** Returns the flag and the contents of the slots after the call; [out]
    is their contents before it. *)
Definition calculate_intersection (p1x p1y p2x p2y p3x p3y p4x p4y : float)
    (out : Slots2) : Z * Slots2 :=
  if C.eq (determinant p1x p1y p2x p2y p3x p3y p4x p4y) 0 then (0, out)
  else
    let out := cramer p1x p1y p2x p2y p3x p3y p4x p4y in
    if onSegment p1x p1y p2x p2y out && onSegment p3x p3y p4x p4y out
    then (1, out)
    else (0, out).

(** ** Area (lines 117-127) *)

Fixpoint calculate_polygon_area_loop (points : Buffer) (length : Z)
    (n : nat) (i : Z) (area : float) : option float :=
  match n with
  | O => Some area
  | S n' =>
      j ← C.rem (i + 1) length;
      pi ← load points i;
      pj ← load points j;
      let area := (area + Point.x pi * Point.y pj)%float in
      let area := (area - Point.x pj * Point.y pi)%float in
      calculate_polygon_area_loop points length n' (i + 1) area
  end.

Definition calculate_polygon_area (points : Buffer) (length : Z)
    : option float :=
  area ←
    calculate_polygon_area_loop points length (Z.to_nat length) 0 0%float;
  Some (C.fabs (area / 2)).

(** ** Perimeter (lines 131-143) *)

Fixpoint calculate_polygon_perimeter_loop (points : Buffer) (length : Z)
    (n : nat) (i : Z) (perimeter : float) : option float :=
  match n with
  | O => Some perimeter
  | S n' =>
      j ← C.rem (i + 1) length;
      pi ← load points i;
      pj ← load points j;
      let perimeter :=
        (perimeter +
         euclidean (Point.x pj) (Point.y pj) (Point.x pi) (Point.y pi))%float
      in
      calculate_polygon_perimeter_loop points length n' (i + 1) perimeter
  end.

Definition calculate_polygon_perimeter (points : Buffer) (length : Z)
    : option float :=
  calculate_polygon_perimeter_loop points length (Z.to_nat length) 0 0%float.

(** ** Bounding box (lines 147-170) *)

(** The contents of the four output slots. *)
Module Box.
Record t : Set :=
  mk { minX : float ; minY : float ; maxX : float ; maxY : float }.
End Box.

Definition bounding_box_step (p : Point) (out : Box.t) : Box.t :=
  let out :=
    if C.lt (Point.x p) (Box.minX out)
    then Box.mk (Point.x p) (Box.minY out) (Box.maxX out) (Box.maxY out)
    else out in
  let out :=
    if C.lt (Point.y p) (Box.minY out)
    then Box.mk (Box.minX out) (Point.y p) (Box.maxX out) (Box.maxY out)
    else out in
  let out :=
    if C.gt (Point.x p) (Box.maxX out)
    then Box.mk (Box.minX out) (Box.minY out) (Point.x p) (Box.maxY out)
    else out in
  if C.gt (Point.y p) (Box.maxY out)
  then Box.mk (Box.minX out) (Box.minY out) (Box.maxX out) (Point.y p)
  else out.

Fixpoint calculate_bounding_box_loop (points : Buffer) (n : nat) (i : Z)
    (out : Box.t) : option Box.t :=
  match n with
  | O => Some out
  | S n' =>
      p ← load points i;
      calculate_bounding_box_loop points n' (i + 1) (bounding_box_step p out)
  end.

(** [out] is the contents of the four slots before the call, the result
    their contents after it. *)
Definition calculate_bounding_box (points : Buffer) (length : Z)
    (out : Box.t) : option Box.t :=
  if length =? 0 then Some (Box.mk 0 0 0 0)
  else
    p0 ← load points 0;
    let out := Box.mk (Point.x p0) (Point.y p0) (Point.x p0) (Point.y p0) in
    calculate_bounding_box_loop points (Z.to_nat (length - 1)) 1 out.

(** ** Intersection of two polygons (lines 174-208) *)

(** The loops of lines 176 and 183: is a vertex of [poly1] inside [poly2]? *)
Fixpoint vertex_loop (poly1 : Buffer) (poly2 : Buffer) (len2 : Z)
    (n : nat) (i : Z) : option bool :=
  match n with
  | O => Some false
  | S n' =>
      p ← load poly1 i;
      b ← is_point_in_polygon (Point.x p) (Point.y p) poly2 len2;
      if (b : bool) then Some true else vertex_loop poly1 poly2 len2 n' (i + 1)
  end.

(** The locals [ix] and [iy] of line 196 are not initialised.  The flag
    does not depend on what they hold ([calculate_intersection_flag_out]
    below), so the model starts them at zero. *)
Definition uninitialised : Slots2 := (0%float, 0%float).

(** The loop of line 193, for the edge of [poly1] from vertex [i] to
    vertex [j]. *)
Fixpoint edge_loop (poly1 : Buffer) (i j : Z) (poly2 : Buffer) (len2 : Z)
    (n : nat) (k : Z) : option bool :=
  match n with
  | O => Some false
  | S n' =>
      l ← C.rem (k + 1) len2;
      pi ← load poly1 i;
      pj ← load poly1 j;
      pk ← load poly2 k;
      pl ← load poly2 l;
      let r := calculate_intersection
                 (Point.x pi) (Point.y pi) (Point.x pj) (Point.y pj)
                 (Point.x pk) (Point.y pk) (Point.x pl) (Point.y pl)
                 uninitialised in
      if negb (fst r =? 0) then Some true
      else edge_loop poly1 i j poly2 len2 n' (k + 1)
  end.

(** The loop of line 190. *)
Fixpoint edges_loop (poly1 : Buffer) (len1 : Z) (poly2 : Buffer) (len2 : Z)
    (n : nat) (i : Z) : option bool :=
  match n with
  | O => Some false
  | S n' =>
      j ← C.rem (i + 1) len1;
      b ← edge_loop poly1 i j poly2 len2 (Z.to_nat len2) 0;
      if (b : bool) then Some true
      else edges_loop poly1 len1 poly2 len2 n' (i + 1)
  end.

Definition do_polygons_intersect (poly1 : Buffer) (len1 : Z)
    (poly2 : Buffer) (len2 : Z) : option bool :=
  a ← vertex_loop poly1 poly2 len2 (Z.to_nat len1) 0;
  if (a : bool) then Some true
  else
    b ← vertex_loop poly2 poly1 len1 (Z.to_nat len2) 0;
    if (b : bool) then Some true
    else edges_loop poly1 len1 poly2 len2 (Z.to_nat len1) 0.

(** ** Buffers (lines 212-220) *)

(** [sizeof(Point)]: two [double]s. *)
Definition sizeof_Point : Z := 16.

(** The conversion to [size_t], and the result of an operation computed
    in it: modulo [2^32]. *)
Definition size_t (n : Z) : Z := n mod 2 ^ 32.

(** What [malloc] answers to a request of [size] bytes: a null pointer
    ([None]), or a block of [size] bytes of unspecified contents, given
    by what the cell at each index holds. *)
Definition Malloc : Type := Z -> option (nat -> Point).

(** Line 213.  The size is the product [length * sizeof(Point)] computed
    in [size_t], [length] converted first; neither [length], nor the
    product, nor the pointer that [malloc] returns is checked.  The
    block holds as many cells as its bytes make up.  A null pointer
    designates no cell: the empty buffer, as for a block of no byte. *)
Definition create_point_array (malloc : Malloc) (length : Z) : Buffer :=
  let size := size_t (size_t length * sizeof_Point) in
  match malloc size with
  | None => []
  | Some junk => map junk (seq 0 (Z.to_nat (size / sizeof_Point)))
  end.

(** A write outside the buffer is undefined behaviour: [None]. *)
Definition set_point (points : Buffer) (index : Z) (x y : float)
    : option Buffer :=
  if (index <? 0) || (Z.of_nat (length points) <=? index) then None
  else Some (<[Z.to_nat index := Point.mk x y]> points).

(** The caller's side of the buffer protocol: the pairs of [pts] are
    stored at the indices [i], [i + 1], ... of [points], one [set_point]
    call each. *)
Fixpoint write_points (points : Buffer) (i : Z) (pts : list (float * float))
    : option Buffer :=
  match pts with
  | [] => Some points
  | (x, y) :: rest =>
      points' ← set_point points i x y;
      write_points points' (i + 1) rest
  end.

(** ** Vocabulary of the statements *)

(** The sequence of points that a sequence of coordinate pairs denotes. *)
Definition points_of (pts : list (float * float)) : Buffer :=
  map (fun c => Point.mk (fst c) (snd c)) pts.

(** [v] lies between [a] and [b], bounds included, whichever of the two is
    the smaller. *)
Definition in_range (a b v : float) : Prop :=
  C.le (C.fmin a b) v = true /\ C.le v (C.fmax a b) = true.

(** The point held by [s] lies in the axis-aligned range of the segment
    from [(ax, ay)] to [(bx, by)]. *)
Definition within_extent (ax ay bx by_ : float) (s : Slots2) : Prop :=
  in_range ax bx (fst s) /\ in_range ay by_ (snd s).

(** Vertex [j] of the edge that the loop of [is_point_in_polygon] pairs
    with vertex [i]: the one before it, the last one for the first. *)
Definition previous_vertex (length i : Z) : Z :=
  if i =? 0 then length - 1 else i - 1.

(** The crossing formula on the edge that ends at vertex [i]. *)
Definition edge_crossed (x y : float) (points : Buffer) (length i : Z)
    : bool :=
  match load points i, load points (previous_vertex length i) with
  | Some pi, Some pj => intersect x y pi pj
  | _, _ => false
  end.

(** The indices [i], [i + 1], ..., [i + n - 1]. *)
Definition indices (i : nat) (n : nat) : list Z := map Z.of_nat (seq i n).

(** The number of edges of the polygon that the ray from [(x, y)] crosses. *)
Definition crossing_count (x y : float) (points : Buffer) (length : Z)
    : nat :=
  List.length
    (List.filter (edge_crossed x y points length)
       (indices 0 (Z.to_nat length))).

(** Some vertex of [A] is inside [B] according to [is_point_in_polygon]. *)
Definition vertex_inside (A : Buffer) (lenA : Z) (B : Buffer) (lenB : Z)
    : Prop :=
  exists i p,
    0 <= i < lenA /\ load A i = Some p /\
    is_point_in_polygon (Point.x p) (Point.y p) B lenB = Some true.

(** Some edge of [A] meets some edge of [B] according to
    [calculate_intersection], whatever the output slots held. *)
Definition edges_meet (A : Buffer) (lenA : Z) (B : Buffer) (lenB : Z)
    : Prop :=
  exists i k pi pj pk pl,
    0 <= i < lenA /\ 0 <= k < lenB /\
    load A i = Some pi /\ load A ((i + 1) mod lenA) = Some pj /\
    load B k = Some pk /\ load B ((k + 1) mod lenB) = Some pl /\
    forall out,
      fst (calculate_intersection
             (Point.x pi) (Point.y pi) (Point.x pj) (Point.y pj)
             (Point.x pk) (Point.y pk) (Point.x pl) (Point.y pl) out) = 1.

(** A division that refuses a divisor equal to zero. *)
Definition checked_div (a b : float) : option float :=
  if C.eq b 0 then None else Some (a / b)%float.

(** [intersect] with every division checked; [&&] evaluates its second
    operand only when the first one holds. *)
Definition intersect_checked (x y : float) (pi pj : Point) : option bool :=
  let xi := Point.x pi in
  let yi := Point.y pi in
  let xj := Point.x pj in
  let yj := Point.y pj in
  if C.bool_ne (C.gt yi y) (C.gt yj y) then
    q ← checked_div ((xj - xi) * (y - yi)) (yj - yi);
    Some (C.lt x (q + xi)%float)
  else Some false.

(** [distance_to_segment] with its division checked. *)
Definition distance_to_segment_checked (px py vx vy wx wy : float)
    : option float :=
  let l2 := segment_l2 vx vy wx wy in
  if C.eq l2 0 then Some (euclidean px py vx vy)
  else
    t ← checked_div ((px - vx) * (wx - vx) + (py - vy) * (wy - vy)) l2;
    if C.lt t 0 then Some (euclidean px py vx vy)
    else if C.gt t 1 then Some (euclidean px py wx wy)
    else
      let projx := (vx + t * (wx - vx))%float in
      let projy := (vy + t * (wy - vy))%float in
      Some (euclidean px py projx projy).

(** The parameter [t] of [distance_to_segment], as line 52 computes it
    from the squared length of line 44. *)
Definition parameter (px py vx vy wx wy : float) : float :=
  segment_t px py vx vy wx wy (segment_l2 vx vy wx wy).

(** The distance from P to the interpolated point V + t(W-V), as lines
    63-67 compute it. *)
Definition distance_to_interpolated (px py vx vy wx wy t : float) : float :=
  euclidean px py (vx + t * (wx - vx)) (vy + t * (wy - vy)).

(** A number that is neither a NaN nor an infinity. *)
Definition finite (a : float) : bool :=
  match Prim2SF a with
  | S754_zero _ | S754_finite _ _ _ => true
  | _ => false
  end.

(** A zero of either sign, on the specification side of a double. *)
Definition is_zero_sf (f : spec_float) : bool :=
  match f with S754_zero _ => true | _ => false end.

(** *** Test polygons *)

Definition square4 : Buffer :=
  [Point.mk 0 0; Point.mk 4 0; Point.mk 4 4; Point.mk 0 4].

(** A square of side [2^600] with its corner at [(2^600, 2^600)]: finite
    coordinates whose products exceed the largest double. *)
Definition far_square : Buffer :=
  [Point.mk 0x1p+600 0x1p+600; Point.mk 0x1p+601 0x1p+600;
   Point.mk 0x1p+601 0x1p+601; Point.mk 0x1p+600 0x1p+601].

Definition unit_square : Buffer :=
  [Point.mk 0 0; Point.mk 1 0; Point.mk 1 1; Point.mk 0 1].

Definition translate (dx dy : float) (points : Buffer) : Buffer :=
  map (fun p => Point.mk (Point.x p + dx) (Point.y p + dy)) points.






(** ** Vocabulary of the further properties *)

(** Two buffers hold the same points in their first [length] cells. *)
Definition agree (length : Z) (points points' : Buffer) : Prop :=
  forall i, 0 <= i < length -> load points i = load points' i.

(** Not a NaN. *)
Definition number (a : float) : bool := negb (is_nan a).

(** A zero of either sign. *)
Definition zero (a : float) : bool := is_zero_sf (Prim2SF a).

(** A specification-side number that does not compare below zero: a NaN,
    a zero, or a number with the sign bit clear. *)
Definition not_negative_sf (f : spec_float) : bool :=
  match f with
  | S754_nan | S754_zero _ => true
  | S754_infinity s | S754_finite s _ _ => negb s
  end.

(** A specification-side zero, or number above zero, infinite or not. *)
Definition positive_sf (f : spec_float) : bool :=
  match f with
  | S754_nan => false
  | S754_zero _ => true
  | S754_infinity s | S754_finite s _ _ => negb s
  end.

(** [a] does not compare below zero, and compares above or equal to it
    unless it is a NaN. *)
Definition not_negative (a : float) : Prop :=
  C.lt a 0 = false /\ (is_nan a = true \/ C.le 0 a = true).

(** Equal, or two zeros of either sign: what no comparison tells apart. *)
Definition sf_equiv (a b : spec_float) : Prop :=
  a = b \/ (is_zero_sf a = true /\ is_zero_sf b = true).

(** The same number: the same double, or [+0] and [-0]. *)
Definition same_number (a b : float) : Prop :=
  sf_equiv (Prim2SF a) (Prim2SF b).

(** No coordinate of the first [length] vertices is a NaN. *)
Definition numbers (length : Z) (points : Buffer) : Prop :=
  forall i p, 0 <= i < length -> load points i = Some p ->
    number (Point.x p) = true /\ number (Point.y p) = true.

(** The point [p] lies in the box, edges included. *)
Definition in_box (box : Box.t) (p : Point) : Prop :=
  C.le (Box.minX box) (Point.x p) = true /\
  C.le (Point.x p) (Box.maxX box) = true /\
  C.le (Box.minY box) (Point.y p) = true /\
  C.le (Point.y p) (Box.maxY box) = true.

(** No slot of the box holds a NaN. *)
Definition box_numbers (box : Box.t) : Prop :=
  number (Box.minX box) = true /\ number (Box.maxX box) = true /\
  number (Box.minY box) = true /\ number (Box.maxY box) = true.

(** Each slot of the box holds a coordinate of one of the first [length]
    vertices. *)
Definition box_attained (length : Z) (points : Buffer) (box : Box.t) : Prop :=
  (exists i p, 0 <= i < length /\ load points i = Some p /\
               Box.minX box = Point.x p) /\
  (exists i p, 0 <= i < length /\ load points i = Some p /\
               Box.minY box = Point.y p) /\
  (exists i p, 0 <= i < length /\ load points i = Some p /\
               Box.maxX box = Point.x p) /\
  (exists i p, 0 <= i < length /\ load points i = Some p /\
               Box.maxY box = Point.y p).

(** Every one of the first [lenA] vertices of [A] is among the first
    [lenB] vertices of [B]. *)
Definition covered (lenA : Z) (A : Buffer) (lenB : Z) (B : Buffer) : Prop :=
  forall i p, 0 <= i < lenA -> load A i = Some p ->
    exists j, 0 <= j < lenB /\ load B j = Some p.

(** Two boxes whose slots hold the same numbers. *)
Definition same_box (a b : Box.t) : Prop :=
  same_number (Box.minX a) (Box.minX b) /\
  same_number (Box.minY a) (Box.minY b) /\
  same_number (Box.maxX a) (Box.maxX b) /\
  same_number (Box.maxY a) (Box.maxY b).

(** The same polygon, listed from its second vertex on. *)
Definition rotate1 (points : Buffer) : Buffer :=
  match points with
  | [] => []
  | p :: rest => rest ++ [p]
  end.

(** * Properties *)

(** Run the binds of the option monad whose first operand is known. *)
Ltac run_binds := cbn [mbind option_bind].

(** The loop variable after the iteration at index [i]. *)
Ltac next_index i :=
  replace (Z.of_nat i + 1) with (Z.of_nat (S i)) by lia.

(** The four indices of a quadrilateral, one goal each. *)
Ltac four_cases i :=
  assert (i = 0 \/ i = 1 \/ i = 2 \/ i = 3) as [-> | [-> | [-> | ->]]]
    by lia.

(** ** Doubles

    Facts about binary64 comparisons, absolute values and differences,
    from the specification of the primitive operations. *)

Lemma Prim2SF_zero : Prim2SF 0 = S754_zero false.
Proof. reflexivity. Qed.

(** An absolute value never compares below zero... *)
Lemma fabs_not_negative (v : float) : C.lt (C.fabs v) 0 = false.
Proof.
  unfold C.lt, C.fabs.
  rewrite FloatAxioms.ltb_spec, FloatAxioms.abs_spec, Prim2SF_zero.
  now destruct (Prim2SF v) as [s | s | | s m e].
Qed.

(** ... and compares above or equal to it unless it is a NaN. *)
Lemma fabs_nan_or_positive (v : float) :
  is_nan (C.fabs v) = true \/ C.le 0 (C.fabs v) = true.
Proof.
  unfold C.le, C.fabs, is_nan.
  rewrite FloatAxioms.leb_spec, FloatAxioms.eqb_spec, FloatAxioms.abs_spec,
    Prim2SF_zero.
  destruct (Prim2SF v) as [s | s | | s m e]; cbn; auto.
Qed.

Lemma SFcompare_antisym (a b : spec_float) :
  SFcompare b a = option_map CompOpp (SFcompare a b).
Proof.
  destruct a as [sa | sa | | sa ma ea], b as [sb | sb | | sb mb eb];
    cbn; try reflexivity;
    try (destruct sa; reflexivity); try (destruct sb; reflexivity);
    try (destruct sa, sb; reflexivity).
  destruct sa, sb; cbn; try reflexivity;
    rewrite (Z.compare_antisym ea eb);
    destruct (ea ?= eb); cbn; try reflexivity;
    rewrite (Pos.compare_cont_antisym ma mb Eq); cbn;
    now rewrite ?CompOpp_involutive.
Qed.

Lemma le_not_gt (a b : float) : C.le a b = true -> C.gt a b = false.
Proof.
  unfold C.le, C.gt. rewrite FloatAxioms.leb_spec, FloatAxioms.ltb_spec.
  unfold SFleb, SFltb. rewrite (SFcompare_antisym (Prim2SF a) (Prim2SF b)).
  now destruct (SFcompare (Prim2SF a) (Prim2SF b)) as [[ | | ] |].
Qed.

Lemma le_not_lt (a b : float) : C.le a b = true -> C.lt b a = false.
Proof. exact (le_not_gt a b). Qed.

Lemma gt_one_not_negative (t : float) : C.gt t 1 = true -> C.lt t 0 = false.
Proof.
  unfold C.gt, C.lt. rewrite !FloatAxioms.ltb_spec, Prim2SF_zero.
  change (Prim2SF 1) with (S754_finite false 4503599627370496 (-52)).
  destruct (Prim2SF t) as [s | s | | s m e]; try discriminate;
    now destruct s.
Qed.

Lemma SFsub_self (s : bool) (m : positive) (e : Z) :
  SF64sub (S754_finite s m e) (S754_finite s m e) = S754_zero false.
Proof.
  unfold SF64sub, SFsub. rewrite Z.min_id.
  now rewrite Z.sub_diag.
Qed.

Lemma SFeqb_finite (s s' : bool) (m m' : positive) (e e' : Z) :
  SFeqb (S754_finite s m e) (S754_finite s' m' e') = true ->
  s = s' /\ m = m' /\ e = e'.
Proof.
  unfold SFeqb, SFcompare.
  change (Pos.compare_cont Eq m m') with (m ?= m')%positive.
  destruct s, s'; try discriminate;
    destruct (Z.compare_spec e e') as [-> | |]; try discriminate;
    destruct (Pos.compare_spec m m') as [-> | |]; try discriminate;
    auto.
Qed.

(** The square of the difference of two equal finite numbers is [+0]. *)
Lemma square_of_difference_zero (v w : float) :
  finite v = true -> C.eq v w = true -> C.pow2 (v - w) = 0%float.
Proof.
  unfold finite, C.eq, C.pow2. rewrite FloatAxioms.eqb_spec.
  intros Hfin Heq. apply Prim2SF_inj.
  rewrite FloatAxioms.mul_spec, FloatAxioms.sub_spec, Prim2SF_zero.
  destruct (Prim2SF v) as [s | s | | s m e]; try discriminate;
    destruct (Prim2SF w) as [s' | s' | | s' m' e'];
    try discriminate; try (destruct s; discriminate);
    try (destruct s, s'; discriminate).
  - destruct s, s'; reflexivity.
  - apply SFeqb_finite in Heq as (-> & -> & ->).
    now rewrite SFsub_self.
Qed.

(** Binary64 has gradual underflow: the difference of two distinct finite
    doubles is a nonzero multiple of [2^emin], and rounding does not take
    it to zero. *)

Lemma shr_1_positive (mrs : shr_record) (m : positive) :
  shr_m mrs = Zpos m -> (1 < digits2_pos m)%positive ->
  exists m', shr_m (shr_1 mrs) = Zpos m' /\
             digits2_pos m = Pos.succ (digits2_pos m').
Proof.
  destruct mrs as [mm r s]. cbn [shr_m]. intros -> Hd.
  destruct m as [m | m |]; cbn in *; [now exists m | now exists m | lia].
Qed.

Lemma iter_shr_1_positive (p : positive) :
  forall (mrs : shr_record) (m : positive),
    shr_m mrs = Zpos m -> (p < digits2_pos m)%positive ->
    exists m', shr_m (SpecFloat.iter_pos shr_1 p mrs) = Zpos m' /\
               (digits2_pos m' + p = digits2_pos m)%positive.
Proof.
  induction p as [p IH | p IH |]; intros mrs m Hm Hp;
    cbn [SpecFloat.iter_pos].
  - destruct (shr_1_positive mrs m Hm) as (m0 & Hm0 & Hd0); [lia |].
    destruct (IH _ m0 Hm0) as (m1 & Hm1 & Hd1); [lia |].
    destruct (IH _ m1 Hm1) as (m2 & Hm2 & Hd2); [lia |].
    exists m2. split; [exact Hm2 | lia].
  - destruct (IH _ m Hm) as (m1 & Hm1 & Hd1); [lia |].
    destruct (IH _ m1 Hm1) as (m2 & Hm2 & Hd2); [lia |].
    exists m2. split; [exact Hm2 | lia].
  - destruct (shr_1_positive mrs m Hm) as (m0 & Hm0 & Hd0); [lia |].
    exists m0. split; [exact Hm0 | lia].
Qed.

Lemma shr_fexp_positive (m : positive) (e : Z) (l : location) :
  emin <= e ->
  exists mrs e' m',
    shr_fexp prec emax (Zpos m) e l = (mrs, e') /\
    shr_m mrs = Zpos m' /\ emin <= e'.
Proof.
  intros He. unfold shr_fexp, shr.
  assert (Hrec : shr_m (shr_record_of_loc (Zpos m) l) = Zpos m)
    by now destruct l as [| []].
  destruct (fexp prec emax (Zdigits2 (Zpos m) + e) - e) as [| p | p] eqn:Hn.
  - now exists (shr_record_of_loc (Zpos m) l), e, m.
  - destruct (iter_shr_1_positive p _ m Hrec) as (m' & Hm' & _).
    { unfold fexp, SpecFloat.emin, prec, emax in *.
      cbn [Zdigits2] in Hn. lia. }
    eexists _, _, m'. split; [reflexivity |]. split; [exact Hm' | lia].
  - now exists (shr_record_of_loc (Zpos m) l), e, m.
Qed.

Lemma round_nearest_even_positive (m : positive) (l : location) :
  exists m', round_nearest_even (Zpos m) l = Zpos m'.
Proof.
  destruct l as [| []]; cbn [round_nearest_even].
  - now exists m.
  - destruct (Z.even (Zpos m)); [now exists m | now exists (m + 1)%positive].
  - now exists m.
  - now exists (m + 1)%positive.
Qed.

Lemma binary_round_aux_not_zero (s : bool) (m : positive) (e : Z)
    (l : location) :
  emin <= e ->
  is_zero_sf (binary_round_aux prec emax s (Zpos m) e l) = false.
Proof.
  intros He. unfold binary_round_aux.
  destruct (shr_fexp_positive m e l He) as (mrs1 & e1 & m1 & -> & Hm1 & He1).
  rewrite Hm1.
  destruct (round_nearest_even_positive m1 (loc_of_shr_record mrs1))
    as [m2 ->].
  destruct (shr_fexp_positive m2 e1 loc_Exact He1)
    as (mrs2 & e2 & m3 & -> & -> & He2).
  now destruct (e2 <=? emax - prec).
Qed.

Lemma binary_round_not_zero (s : bool) (m : positive) (e : Z) :
  emin <= e ->
  is_zero_sf (binary_round prec emax s m e) = false.
Proof.
  intros He. unfold binary_round, shl_align.
  destruct (fexp prec emax (Zpos (digits2_pos m) + e) - e)
    as [| d | d] eqn:Hd;
    apply binary_round_aux_not_zero; try exact He.
  unfold fexp. lia.
Qed.

Lemma digits2_pos_shift (m d : positive) :
  digits2_pos (Pos.iter xO m d) = (digits2_pos m + d)%positive.
Proof.
  induction d as [| d IH] using Pos.peano_ind.
  - cbn. lia.
  - rewrite Pos.iter_succ. cbn [digits2_pos]. rewrite IH. lia.
Qed.

Lemma valid_finite_bounds (s : bool) (m : positive) (e : Z) :
  valid_binary (S754_finite s m e) = true ->
  emin <= e /\ Zpos (digits2_pos m) <= 53 /\
  (emin < e -> Zpos (digits2_pos m) = 53).
Proof.
  cbn [SpecFloat.valid_binary]. unfold bounded, canonical_mantissa, fexp.
  rewrite andb_true_iff, Z.eqb_eq. unfold SpecFloat.emin, prec, emax.
  lia.
Qed.

Lemma SFsub_finite_zero (sb sa : bool) (mb ma : positive) (eb ea : Z) :
  valid_binary (S754_finite sb mb eb) = true ->
  valid_binary (S754_finite sa ma ea) = true ->
  is_zero_sf (SF64sub (S754_finite sb mb eb) (S754_finite sa ma ea)) = true ->
  sb = sa /\ mb = ma /\ eb = ea.
Proof.
  intros Hvb Hva.
  apply valid_finite_bounds in Hvb as (Hb1 & Hb2 & Hb3).
  apply valid_finite_bounds in Hva as (Ha1 & Ha2 & Ha3).
  unfold SF64sub, SFsub, binary_normalize.
  destruct (cond_Zopp sb (Zpos (fst (shl_align mb eb (Z.min eb ea))))
            - cond_Zopp sa (Zpos (fst (shl_align ma ea (Z.min eb ea)))))
    as [| d | d] eqn:Hd.
  - intros _. unfold shl_align in Hd.
    destruct (Z.min eb ea - eb) as [| n | n] eqn:Hnb;
      destruct (Z.min eb ea - ea) as [| n' | n'] eqn:Hna;
      cbn [fst] in Hd; try lia;
      destruct sb, sa; cbn [cond_Zopp] in Hd; try lia.
    all: try (assert (mb = ma) by lia; subst; repeat split; lia).
    all: try (assert (Hm : mb = Pos.iter xO ma n') by lia;
              apply (f_equal digits2_pos) in Hm;
              rewrite digits2_pos_shift in Hm; lia).
    all: try (assert (Hm : ma = Pos.iter xO mb n) by lia;
              apply (f_equal digits2_pos) in Hm;
              rewrite digits2_pos_shift in Hm; lia).
  - rewrite binary_round_not_zero by lia. discriminate.
  - rewrite binary_round_not_zero by lia. discriminate.
Qed.

Lemma SFeqb_zero (r : spec_float) :
  SFeqb r (S754_zero false) = is_zero_sf r.
Proof. destruct r as [s | s | | s m e]; try reflexivity; now destruct s. Qed.

(** Two numbers whose difference is zero compare alike with any third. *)
Lemma SFsub_zero_same_order (sa sb sy : spec_float) :
  valid_binary sa = true -> valid_binary sb = true ->
  is_zero_sf (SF64sub sb sa) = true ->
  SFltb sy sa = SFltb sy sb.
Proof.
  intros Hva Hvb.
  destruct sa as [s | s | | s m e], sb as [s' | s' | | s' m' e'];
    try discriminate;
    try (destruct s; discriminate); try (destruct s'; discriminate);
    try (destruct s, s'; discriminate).
  - intros _. destruct sy as [t | t | | t n f]; try reflexivity.
  - intros Hz. apply SFsub_finite_zero in Hz as (-> & -> & ->); auto.
Qed.

Lemma SFeqb_same_order (sa sb sy : spec_float) :
  SFeqb sa sb = true -> SFltb sy sa = SFltb sy sb.
Proof.
  destruct sa as [s | s | | s m e], sb as [s' | s' | | s' m' e'];
    try discriminate;
    try (destruct s; discriminate); try (destruct s'; discriminate);
    try (destruct s, s'; discriminate).
  - intros _. destruct sy as [t | t | | t n f]; try reflexivity.
  - destruct s, s'; try discriminate; reflexivity.
  - intros Heq. now apply SFeqb_finite in Heq as (-> & -> & ->).
Qed.

Lemma difference_zero_same_order (a b y : float) :
  C.eq (b - a) 0 = true -> C.gt a y = C.gt b y.
Proof.
  unfold C.eq, C.gt.
  rewrite FloatAxioms.eqb_spec, FloatAxioms.sub_spec, !FloatAxioms.ltb_spec,
    Prim2SF_zero, SFeqb_zero.
  apply SFsub_zero_same_order; apply Prim2SF_valid.
Qed.

Lemma equal_same_order (a b y : float) :
  C.eq a b = true -> C.gt a y = C.gt b y.
Proof.
  unfold C.eq, C.gt. rewrite FloatAxioms.eqb_spec, !FloatAxioms.ltb_spec.
  apply SFeqb_same_order.
Qed.

(** ** Indices and reads *)

Lemma load_in_range (points : Buffer) (i : Z) :
  0 <= i < Z.of_nat (length points) -> exists p, load points i = Some p.
Proof.
  intros [Hlo Hhi]. unfold load.
  destruct (Z.ltb_spec i 0) as [Hneg | _]; [lia |].
  destruct (lookup_lt_is_Some_2 points (Z.to_nat i)) as [p Hp]; [lia |].
  now exists p.
Qed.

Lemma rem_successor (len k : Z) :
  0 <= k < len ->
  C.rem (k + 1) len = Some ((k + 1) mod len) /\ 0 <= (k + 1) mod len < len.
Proof.
  intros Hk. unfold C.rem.
  destruct (Z.eqb_spec len 0) as [Hz | _]; [lia |].
  split; [f_equal; apply Z.rem_mod_nonneg; lia |].
  apply Z.mod_pos_bound. lia.
Qed.

(** ** Point in polygon *)

Lemma indices_cons (i n : nat) :
  indices i (S n) = Z.of_nat i :: indices (S i) n.
Proof. reflexivity. Qed.

Lemma previous_vertex_succ (length : Z) (i : nat) :
  previous_vertex length (Z.of_nat (S i)) = Z.of_nat i.
Proof.
  unfold previous_vertex.
  destruct (Z.eqb_spec (Z.of_nat (S i)) 0); lia.
Qed.

Lemma previous_vertex_range (length : Z) (i : Z) :
  0 <= i < length -> 0 <= previous_vertex length i < length.
Proof.
  unfold previous_vertex. destruct (Z.eqb_spec i 0); lia.
Qed.

Lemma xorb_flip (inside : bool) (c : nat) :
  xorb (negb inside) (Nat.odd c) = xorb inside (Nat.odd (S c)).
Proof.
  rewrite Nat.odd_succ, <- Nat.negb_odd.
  now destruct inside, (Nat.odd c).
Qed.

(** The loop flips [inside] once for each crossed edge it visits. *)
Lemma is_point_in_polygon_loop_parity (x y : float) (points : Buffer)
    (len : Z) :
  len <= Z.of_nat (length points) ->
  forall (n i : nat) (inside : bool),
    Z.of_nat (i + n) <= len ->
    is_point_in_polygon_loop x y points n (Z.of_nat i)
      (previous_vertex len (Z.of_nat i)) inside
    = Some (xorb inside
              (Nat.odd (List.length
                          (List.filter (edge_crossed x y points len)
                             (indices i n))))).
Proof.
  intros Hlen n. induction n as [| n IH]; intros i inside Hin.
  - simpl. now rewrite xorb_false_r.
  - destruct (load_in_range points (Z.of_nat i)) as [pi Hpi]; [lia |].
    destruct (load_in_range points (previous_vertex len (Z.of_nat i)))
      as [pj Hpj].
    { pose proof (previous_vertex_range len (Z.of_nat i)). lia. }
    rewrite indices_cons. cbn [is_point_in_polygon_loop List.filter].
    rewrite Hpi, Hpj. run_binds.
    next_index i.
    pose proof (IH (S i)) as IH'. rewrite previous_vertex_succ in IH'.
    rewrite IH' by lia.
    assert (Hedge : edge_crossed x y points len (Z.of_nat i)
                    = intersect x y pi pj).
    { unfold edge_crossed. now rewrite Hpi, Hpj. }
    rewrite Hedge.
    destruct (intersect x y pi pj); cbn [List.length]; [| reflexivity].
    now rewrite xorb_flip.
Qed.

Lemma is_point_in_polygon_count (x y : float) (points : Buffer) (len : Z) :
  len <= Z.of_nat (length points) ->
  is_point_in_polygon x y points len
    = Some (Nat.odd (crossing_count x y points len)).
Proof.
  intros Hlen. unfold is_point_in_polygon, crossing_count.
  destruct (Z.le_gt_cases 0 len) as [Hpos | Hneg];
    [| now replace (Z.to_nat len) with O by lia].
  pose proof (is_point_in_polygon_loop_parity x y points len Hlen
                (Z.to_nat len) 0 false) as H.
  change (previous_vertex len (Z.of_nat 0)) with (len - 1) in H.
  change (Z.of_nat 0) with 0 in H.
  rewrite H by lia. now rewrite xorb_false_l.
Qed.

(** C4: [is_point_in_polygon] returns true exactly when the number of
    edges on which the crossing formula (strict comparisons, the same on
    every edge, no tolerance) holds is odd.  For the square (0,0), (4,0),
    (4,4), (0,4) the point (2,2) is inside and (10,10) is not. *)
Theorem is_point_in_polygon_parity :
  forall (x y : float) (points : Buffer) (len : Z),
    len <= Z.of_nat (length points) ->
    is_point_in_polygon x y points len
      = Some (Nat.odd (crossing_count x y points len)) /\
    is_point_in_polygon 2 2 square4 4 = Some true /\
    is_point_in_polygon 10 10 square4 4 = Some false.
Proof.
  intros x y points len Hlen.
  split; [now apply is_point_in_polygon_count |].
  split; vm_compute; reflexivity.
Qed.

Lemma is_point_in_polygon_parity_witness :
  4 <= Z.of_nat (length square4) /\
  is_point_in_polygon 2 2 square4 4
    = Some (Nat.odd (crossing_count 2 2 square4 4)).
Proof.
  assert (H : 4 <= Z.of_nat (length square4)) by (vm_compute; discriminate).
  split; [exact H |].
  exact (proj1 (is_point_in_polygon_parity 2 2 square4 4 H)).
Defined.

Lemma crossing_divisor (y yi yj : float) :
  C.bool_ne (C.gt yi y) (C.gt yj y) = true ->
  C.eq (yj - yi) 0 = false /\ C.eq yi yj = false /\ yi <> yj.
Proof.
  unfold C.bool_ne. intros Hne. repeat split.
  - destruct (C.eq (yj - yi) 0) eqn:Hz; [| reflexivity].
    rewrite (difference_zero_same_order yi yj y Hz) in Hne.
    now rewrite xorb_nilpotent in Hne.
  - destruct (C.eq yi yj) eqn:Hz; [| reflexivity].
    rewrite (equal_same_order yi yj y Hz) in Hne.
    now rewrite xorb_nilpotent in Hne.
  - intros ->. now rewrite xorb_nilpotent in Hne.
Qed.

(** C10: in [is_point_in_polygon] the quotient by [yj - yi] is evaluated
    only when [(yi > y) != (yj > y)] holds; then [yi] and [yj] differ and
    the divisor does not equal 0.  On every input the crossing test with
    its division checked returns, with the value of the test as the code
    has it: the branch of a zero divisor is never taken. *)
Theorem crossing_division_safe :
  forall (x y : float) (pi pj : Point),
    (C.bool_ne (C.gt (Point.y pi) y) (C.gt (Point.y pj) y) = true ->
     C.eq (Point.y pj - Point.y pi) 0 = false /\
     C.eq (Point.y pi) (Point.y pj) = false /\
     Point.y pi <> Point.y pj)
    /\
    (C.bool_ne (C.gt (Point.y pi) y) (C.gt (Point.y pj) y) = false ->
     intersect x y pi pj = false)
    /\
    intersect_checked x y pi pj = Some (intersect x y pi pj).
Proof.
  intros. split; [apply crossing_divisor |].
  split; [unfold intersect; now intros -> |].
  unfold intersect_checked, intersect, checked_div.
  destruct (C.bool_ne _ _) eqn:Hne; [| reflexivity].
  apply crossing_divisor in Hne as (-> & _). reflexivity.
Qed.

(** ** Distance to a segment *)

Lemma segment_l2_equal_endpoints (vx vy wx wy : float) :
  finite vx = true -> finite vy = true ->
  C.eq vx wx = true -> C.eq vy wy = true ->
  segment_l2 vx vy wx wy = 0%float.
Proof.
  intros Hfx Hfy Hx Hy. unfold segment_l2.
  now rewrite !square_of_difference_zero.
Qed.

Lemma distance_to_segment_checked_total (px py vx vy wx wy : float) :
  distance_to_segment_checked px py vx vy wx wy
    = Some (distance_to_segment px py vx vy wx wy).
Proof.
  unfold distance_to_segment_checked, distance_to_segment, checked_div.
  destruct (C.eq (segment_l2 vx vy wx wy) 0) eqn:Hl2; [reflexivity |].
  run_binds. fold (segment_t px py vx vy wx wy
                                   (segment_l2 vx vy wx wy)).
  destruct (C.lt _ 0); [reflexivity |].
  now destruct (C.gt _ 1).
Qed.

(** C5, as the code has it: [distance_to_segment] returns |P-V| when the
    squared length [l2] it computes equals 0, which is the case when V = W
    and the coordinates are finite; otherwise, with
    [t = ((P-V).(W-V)) / l2], it returns |P-V| when [t < 0], |P-W| when
    [t > 1], and the distance from P to V + t(W-V) in every other case,
    [0 <= t <= 1] among them; no division by an [l2] equal to 0 is ever
    performed.  From (0,5) to the segment (0,0)-(10,0) the distance is 5,
    from (-3,0) it is 3. *)
Theorem distance_to_segment_cases :
  forall px py vx vy wx wy : float,
    (C.eq (segment_l2 vx vy wx wy) 0 = true ->
     distance_to_segment px py vx vy wx wy = euclidean px py vx vy)
    /\
    (finite vx = true -> finite vy = true ->
     C.eq vx wx = true -> C.eq vy wy = true ->
     C.eq (segment_l2 vx vy wx wy) 0 = true /\
     distance_to_segment px py vx vy wx wy = euclidean px py vx vy)
    /\
    (C.eq (segment_l2 vx vy wx wy) 0 = false ->
     (C.lt (parameter px py vx vy wx wy) 0 = true ->
      distance_to_segment px py vx vy wx wy = euclidean px py vx vy)
     /\
     (C.gt (parameter px py vx vy wx wy) 1 = true ->
      distance_to_segment px py vx vy wx wy = euclidean px py wx wy)
     /\
     (C.lt (parameter px py vx vy wx wy) 0 = false ->
      C.gt (parameter px py vx vy wx wy) 1 = false ->
      distance_to_segment px py vx vy wx wy
        = distance_to_interpolated px py vx vy wx wy
            (parameter px py vx vy wx wy))
     /\
     (C.le 0 (parameter px py vx vy wx wy) = true ->
      C.le (parameter px py vx vy wx wy) 1 = true ->
      distance_to_segment px py vx vy wx wy
        = distance_to_interpolated px py vx vy wx wy
            (parameter px py vx vy wx wy)))
    /\
    distance_to_segment_checked px py vx vy wx wy
      = Some (distance_to_segment px py vx vy wx wy)
    /\
    distance_to_segment 0 5 0 0 10 0 = 5%float
    /\
    distance_to_segment (-3) 0 0 0 10 0 = 3%float.
Proof.
  intros.
  assert (Hzero :
    C.eq (segment_l2 vx vy wx wy) 0 = true ->
    distance_to_segment px py vx vy wx wy = euclidean px py vx vy).
  { unfold distance_to_segment. now intros ->. }
  split; [exact Hzero |].
  split.
  { intros Hfx Hfy Hx Hy.
    assert (Hl2 : C.eq (segment_l2 vx vy wx wy) 0 = true)
      by now rewrite segment_l2_equal_endpoints.
    split; [exact Hl2 | exact (Hzero Hl2)]. }
  split.
  { intros Hl2.
    unfold distance_to_segment, distance_to_interpolated, parameter.
    rewrite Hl2. repeat split.
    - now intros ->.
    - intros Hgt. rewrite (gt_one_not_negative _ Hgt). now rewrite Hgt.
    - now intros -> ->.
    - intros Hlo Hhi.
      now rewrite (le_not_lt _ _ Hlo), (le_not_gt _ _ Hhi). }
  split; [apply distance_to_segment_checked_total |].
  split; vm_compute; reflexivity.
Qed.

(** C5 as stated fails when the squared length underflows: V = (0,0) and
    W = (2^-538, 0) differ, the parameter is greater than 1 for
    P = (2^-536, 0) (4 exactly, [infinity] when divided by the computed
    [l2 = 0]), and the result is |P-V| = 2^-536, not |P-W|.  It also fails
    for V = W with an infinite coordinate: the result is a NaN, |P-V| is
    [infinity]. *)
Lemma distance_to_segment_underflow :
  C.eq 0 0x1p-538 = false /\
  finite 0x1p-538 = true /\ finite 0x1p-536 = true /\
  segment_l2 0 0 0x1p-538 0 = 0%float /\
  parameter 0x1p-536 0 0 0 0x1p-538 0 = infinity /\
  C.gt (parameter 0x1p-536 0 0 0 0x1p-538 0) 1 = true /\
  distance_to_segment 0x1p-536 0 0 0 0x1p-538 0 = 0x1p-536%float /\
  euclidean 0x1p-536 0 0 0 = 0x1p-536%float /\
  C.eq (distance_to_segment 0x1p-536 0 0 0 0x1p-538 0)
       (euclidean 0x1p-536 0 0x1p-538 0) = false /\
  distance_to_segment 0 0 infinity 0 infinity 0 = nan /\
  euclidean 0 0 infinity 0 = infinity.
Proof.
  repeat split; vm_compute; reflexivity.
Qed.

(** ** Segment intersection *)

Section Intersection.

Variables p1x p1y p2x p2y p3x p3y p4x p4y : float.

Let det := determinant p1x p1y p2x p2y p3x p3y p4x p4y.
Let sol := cramer p1x p1y p2x p2y p3x p3y p4x p4y.
Let run := calculate_intersection p1x p1y p2x p2y p3x p3y p4x p4y.

Lemma onSegment_within_extent (ax ay bx by_ : float) (s : Slots2) :
  onSegment ax ay bx by_ s = true <-> within_extent ax ay bx by_ s.
Proof.
  unfold onSegment, within_extent, in_range.
  rewrite !andb_true_iff. tauto.
Qed.

Lemma calculate_intersection_parallel (out : Slots2) :
  C.eq det 0 = true -> run out = (0, out).
Proof.
  unfold run, calculate_intersection. fold det. now intros ->.
Qed.

Lemma calculate_intersection_slots (out : Slots2) :
  C.eq det 0 = false -> snd (run out) = sol.
Proof.
  unfold run, calculate_intersection. fold det sol. intros ->.
  now destruct (onSegment _ _ _ _ sol && onSegment _ _ _ _ sol).
Qed.

Lemma calculate_intersection_flag (out : Slots2) :
  fst (run out) = 1 <->
  C.eq det 0 = false /\
  within_extent p1x p1y p2x p2y sol /\ within_extent p3x p3y p4x p4y sol.
Proof.
  rewrite <- !onSegment_within_extent, <- andb_true_iff.
  unfold run, calculate_intersection. fold det sol.
  destruct (C.eq det 0); simpl; [intuition discriminate |].
  destruct (onSegment _ _ _ _ sol && onSegment _ _ _ _ sol); simpl;
    intuition discriminate.
Qed.

Lemma calculate_intersection_flag_bit (out : Slots2) :
  fst (run out) = 0 \/ fst (run out) = 1.
Proof.
  unfold run, calculate_intersection.
  destruct (C.eq _ 0); [now left |].
  destruct (_ && _); [now right | now left].
Qed.

(** The flag does not depend on what the output slots held. *)
Lemma calculate_intersection_flag_out (out out' : Slots2) :
  fst (run out) = fst (run out').
Proof.
  unfold run, calculate_intersection.
  destruct (C.eq _ 0); [reflexivity |].
  now destruct (_ && _).
Qed.

End Intersection.


(** C9: [calculate_intersection] leaves both output slots as they were and
    returns 0 when the determinant [a1 b2 - a2 b1] equals 0; when the
    determinant is not 0 the slot [ix] receives
    [(b2 c1 - b1 c2) / det] and the slot [iy] receives
    [(a1 c2 - a2 c1) / det], the coordinates of the intersection of the
    lines [a1 x + b1 y = c1] and [a2 x + b2 y = c2], also when the range
    check then fails and the flag is 0, as for the segments (0,0)-(1,0)
    and (5,-1)-(5,1). *)
Theorem calculate_intersection_frame :
  forall (p1x p1y p2x p2y p3x p3y p4x p4y : float) (out : Slots2),
    let a1 := (p2y - p1y)%float in
    let b1 := (p1x - p2x)%float in
    let c1 := (a1 * p1x + b1 * p1y)%float in
    let a2 := (p4y - p3y)%float in
    let b2 := (p3x - p4x)%float in
    let c2 := (a2 * p3x + b2 * p3y)%float in
    let det := (a1 * b2 - a2 * b1)%float in
    (C.eq det 0 = true ->
     calculate_intersection p1x p1y p2x p2y p3x p3y p4x p4y out = (0, out))
    /\
    (C.eq det 0 = false ->
     fst (snd (calculate_intersection p1x p1y p2x p2y p3x p3y p4x p4y out))
       = ((b2 * c1 - b1 * c2) / det)%float /\
     snd (snd (calculate_intersection p1x p1y p2x p2y p3x p3y p4x p4y out))
       = ((a1 * c2 - a2 * c1) / det)%float)
    /\
    C.eq ((0 - 0) * (5 - 5) - (1 - (-1)) * (0 - 1)) 0 = false
    /\
    calculate_intersection 0 0 1 0 5 (-1) 5 1 out = (0, (5, 0)%float).
Proof.
  intros p1x p1y p2x p2y p3x p3y p4x p4y out a1 b1 c1 a2 b2 c2 det.
  assert (Hdet : det = determinant p1x p1y p2x p2y p3x p3y p4x p4y)
    by reflexivity.
  split; [rewrite Hdet; apply calculate_intersection_parallel |].
  split.
  { rewrite Hdet. intros Hnz.
    now rewrite (calculate_intersection_slots _ _ _ _ _ _ _ _ out Hnz). }
  split; vm_compute; reflexivity.
Qed.

(** ** Area, perimeter and bounding box *)

Lemma calculate_polygon_area_loop_total (points : Buffer) (len : Z) :
  len <= Z.of_nat (length points) ->
  forall (n i : nat) (area : float),
    Z.of_nat (i + n) <= len ->
    exists r,
      calculate_polygon_area_loop points len n (Z.of_nat i) area = Some r.
Proof.
  intros Hlen n. induction n as [| n IH]; intros i area Hin.
  - now exists area.
  - destruct (rem_successor len (Z.of_nat i)) as [Hrem Hj]; [lia |].
    destruct (load_in_range points (Z.of_nat i)) as [pi Hpi]; [lia |].
    destruct (load_in_range points ((Z.of_nat i + 1) mod len)) as [pj Hpj];
      [lia |].
    cbn [calculate_polygon_area_loop]. rewrite Hrem. run_binds.
    rewrite Hpi, Hpj. run_binds.
    next_index i.
    apply IH. lia.
Qed.

Lemma calculate_polygon_area_fabs (points : Buffer) (len : Z) :
  len <= Z.of_nat (length points) ->
  exists sum,
    calculate_polygon_area_loop points len (Z.to_nat len) 0 0%float
      = Some sum /\
    calculate_polygon_area points len = Some (C.fabs (sum / 2)).
Proof.
  intros Hlen. unfold calculate_polygon_area.
  destruct (Z.le_gt_cases 0 len) as [Hpos | Hneg].
  - destruct (calculate_polygon_area_loop_total points len Hlen
                (Z.to_nat len) 0 0%float) as [sum Hsum]; [lia |].
    change (Z.of_nat 0) with 0 in Hsum. rewrite Hsum. now exists sum.
  - replace (Z.to_nat len) with O by lia. now exists 0%float.
Qed.

Lemma calculate_polygon_perimeter_loop_total (points : Buffer) (len : Z) :
  len <= Z.of_nat (length points) ->
  forall (n i : nat) (perimeter : float),
    Z.of_nat (i + n) <= len ->
    exists r,
      calculate_polygon_perimeter_loop points len n (Z.of_nat i) perimeter
        = Some r.
Proof.
  intros Hlen n. induction n as [| n IH]; intros i perimeter Hin.
  - now exists perimeter.
  - destruct (rem_successor len (Z.of_nat i)) as [Hrem Hj]; [lia |].
    destruct (load_in_range points (Z.of_nat i)) as [pi Hpi]; [lia |].
    destruct (load_in_range points ((Z.of_nat i + 1) mod len)) as [pj Hpj];
      [lia |].
    cbn [calculate_polygon_perimeter_loop]. rewrite Hrem. run_binds.
    rewrite Hpi, Hpj. run_binds.
    next_index i.
    apply IH. lia.
Qed.

Lemma calculate_polygon_perimeter_total (points : Buffer) (len : Z) :
  len <= Z.of_nat (length points) ->
  exists r, calculate_polygon_perimeter points len = Some r.
Proof.
  intros Hlen. unfold calculate_polygon_perimeter.
  destruct (Z.le_gt_cases 0 len) as [Hpos | Hneg].
  - apply (calculate_polygon_perimeter_loop_total points len Hlen
             (Z.to_nat len) 0). lia.
  - replace (Z.to_nat len) with O by lia. now exists 0%float.
Qed.

Lemma calculate_bounding_box_loop_total (points : Buffer) :
  forall (n i : nat) (out : Box.t),
    Z.of_nat (i + n) <= Z.of_nat (length points) ->
    exists r,
      calculate_bounding_box_loop points n (Z.of_nat i) out = Some r.
Proof.
  intros n. induction n as [| n IH]; intros i out Hin.
  - now exists out.
  - destruct (load_in_range points (Z.of_nat i)) as [p Hp]; [lia |].
    cbn [calculate_bounding_box_loop]. rewrite Hp. run_binds.
    next_index i.
    apply IH. lia.
Qed.

(** A negative [length] makes the code read [points[0]]: the bounding box
    asks for a length that is not negative. *)
Lemma calculate_bounding_box_total (points : Buffer) (len : Z) (out : Box.t) :
  0 <= len <= Z.of_nat (length points) ->
  exists r, calculate_bounding_box points len out = Some r.
Proof.
  intros Hlen. unfold calculate_bounding_box.
  destruct (Z.eqb_spec len 0) as [Hz | Hnz]; [now eexists |].
  destruct (load_in_range points 0) as [p0 Hp0]; [lia |].
  rewrite Hp0. run_binds.
  apply (calculate_bounding_box_loop_total points (Z.to_nat (len - 1)) 1).
  lia.
Qed.

(** C6, as the code has it: on a polygon whose [len] vertices lie in the
    buffer the area is returned, it is the absolute value of half the
    shoelace sum, and it is never negative: it is greater than or equal
    to 0 unless it is a NaN.  The square (0,0), (4,0), (4,4), (0,4) has
    area 16, perimeter 16 and bounding box (0,0,4,4). *)
Theorem calculate_polygon_area_not_negative :
  forall (points : Buffer) (len : Z),
    len <= Z.of_nat (length points) ->
    (exists sum area,
       calculate_polygon_area_loop points len (Z.to_nat len) 0 0%float
         = Some sum /\
       calculate_polygon_area points len = Some area /\
       area = C.fabs (sum / 2) /\
       C.lt area 0 = false /\
       (is_nan area = true \/ C.le 0 area = true)) /\
    calculate_polygon_area square4 4 = Some 16%float /\
    calculate_polygon_perimeter square4 4 = Some 16%float /\
    (forall out,
       calculate_bounding_box square4 4 out = Some (Box.mk 0 0 4 4)).
Proof.
  intros points len Hlen. split.
  - destruct (calculate_polygon_area_fabs points len Hlen)
      as (sum & Hsum & Harea).
    exists sum, (C.fabs (sum / 2)).
    split; [exact Hsum |]. split; [exact Harea |]. split; [reflexivity |].
    split; [apply fabs_not_negative | apply fabs_nan_or_positive].
  - repeat split; vm_compute; reflexivity.
Qed.

Lemma calculate_polygon_area_not_negative_witness :
  4 <= Z.of_nat (length square4) /\
  exists sum area,
    calculate_polygon_area_loop square4 4 (Z.to_nat 4) 0 0%float
      = Some sum /\
    calculate_polygon_area square4 4 = Some area /\
    area = C.fabs (sum / 2) /\
    C.lt area 0 = false /\
    (is_nan area = true \/ C.le 0 area = true).
Proof.
  assert (H : 4 <= Z.of_nat (length square4)) by (vm_compute; discriminate).
  split; [exact H |].
  exact (proj1 (calculate_polygon_area_not_negative square4 4 H)).
Defined.

(** C6 as stated fails: the four vertices of [far_square] are finite, the
    shoelace sum overflows to [infinity - infinity], and the area returned
    is a NaN, which does not compare greater than or equal to 0. *)
Lemma calculate_polygon_area_nan :
  forallb (fun p => finite (Point.x p) && finite (Point.y p)) far_square
    = true /\
  calculate_polygon_area far_square 4 = Some nan /\
  C.le 0 nan = false.
Proof.
  repeat split; vm_compute; reflexivity.
Qed.

(** *** Polygons without vertices *)

(** C7: with length 0 no cell of the buffer is read, whatever the buffer
    is (the empty one included), and no division by the length happens:
    the area is 0, the perimeter is 0, the four slots of the bounding box
    receive 0 and no point is inside. *)
Theorem zero_vertex_polygon :
  forall (points : Buffer) (x y : float) (out : Box.t),
    calculate_polygon_area points 0 = Some 0%float /\
    calculate_polygon_perimeter points 0 = Some 0%float /\
    calculate_bounding_box points 0 out = Some (Box.mk 0 0 0 0) /\
    is_point_in_polygon x y points 0 = Some false.
Proof.
  intros. repeat split.
Qed.

(** ** Intersection of two polygons *)

Lemma flag_test (p1x p1y p2x p2y p3x p3y p4x p4y : float) :
  negb (fst (calculate_intersection p1x p1y p2x p2y p3x p3y p4x p4y
               uninitialised) =? 0) = true
  <-> forall out,
        fst (calculate_intersection p1x p1y p2x p2y p3x p3y p4x p4y out) = 1.
Proof.
  rewrite negb_true_iff, Z.eqb_neq. split.
  - intros Hflag out.
    rewrite (calculate_intersection_flag_out _ _ _ _ _ _ _ _ out uninitialised).
    destruct (calculate_intersection_flag_bit
                p1x p1y p2x p2y p3x p3y p4x p4y uninitialised); congruence.
  - intros Hall. rewrite (Hall uninitialised). discriminate.
Qed.

Section TwoPolygons.

Variables (A B : Buffer) (lenA lenB : Z).
Hypothesis HlenA : lenA <= Z.of_nat (length A).
Hypothesis HlenB : lenB <= Z.of_nat (length B).

(** The first two loops: the vertices [i], ..., [i + n - 1] of [A]
    against [B]. *)
Lemma vertex_loop_spec (n i : nat) :
  Z.of_nat (i + n) <= lenA ->
  exists b,
    vertex_loop A B lenB n (Z.of_nat i) = Some b /\
    (b = true <->
     exists k p,
       Z.of_nat i <= k < Z.of_nat (i + n) /\ load A k = Some p /\
       is_point_in_polygon (Point.x p) (Point.y p) B lenB = Some true).
Proof.
  revert i. induction n as [| n IH]; intros i Hin.
  - exists false. split; [reflexivity |].
    split; [discriminate | intros (k & _ & Hk & _); lia].
  - destruct (load_in_range A (Z.of_nat i)) as [p Hp]; [lia |].
    cbn [vertex_loop]. rewrite Hp. run_binds.
    rewrite (is_point_in_polygon_count _ _ B lenB HlenB).
    run_binds.
    destruct (Nat.odd (crossing_count _ _ B lenB)) eqn:Hin_p.
    + exists true. split; [reflexivity |]. split; [intros _ | reflexivity].
      exists (Z.of_nat i), p. split; [lia |]. split; [exact Hp |].
      now rewrite is_point_in_polygon_count, Hin_p.
    + next_index i.
      destruct (IH (S i)) as (b & Hb & Hiff); [lia |].
      exists b. split; [exact Hb |]. rewrite Hiff. split.
      * intros (k & q & Hk & Hq & Hinside). exists k, q.
        repeat split; auto; lia.
      * intros (k & q & Hk & Hq & Hinside).
        destruct (Z.eq_dec k (Z.of_nat i)) as [-> | Hne].
        -- rewrite Hp in Hq. injection Hq as <-.
           rewrite is_point_in_polygon_count, Hin_p in Hinside by assumption.
           discriminate.
        -- exists k, q. repeat split; auto; lia.
Qed.

(** The inner loop of the third stage: the edge of [A] from [pi] to [pj]
    against the edges [k], ..., [k + n - 1] of [B]. *)
Lemma edge_loop_spec (i j : Z) (pi pj : Point) (n k : nat) :
  load A i = Some pi -> load A j = Some pj ->
  Z.of_nat (k + n) <= lenB ->
  exists b,
    edge_loop A i j B lenB n (Z.of_nat k) = Some b /\
    (b = true <->
     exists k' pk pl,
       Z.of_nat k <= k' < Z.of_nat (k + n) /\
       load B k' = Some pk /\ load B ((k' + 1) mod lenB) = Some pl /\
       forall out,
         fst (calculate_intersection
                (Point.x pi) (Point.y pi) (Point.x pj) (Point.y pj)
                (Point.x pk) (Point.y pk) (Point.x pl) (Point.y pl) out) = 1).
Proof.
  intros Hpi Hpj. revert k. induction n as [| n IH]; intros k Hkn.
  - exists false. split; [reflexivity |].
    split; [discriminate | intros (k' & _ & _ & Hk & _); lia].
  - destruct (rem_successor lenB (Z.of_nat k)) as [Hrem Hl]; [lia |].
    destruct (load_in_range B (Z.of_nat k)) as [pk Hpk]; [lia |].
    destruct (load_in_range B ((Z.of_nat k + 1) mod lenB)) as [pl Hpl];
      [lia |].
    cbn [edge_loop]. rewrite Hrem. run_binds.
    rewrite Hpi, Hpj, Hpk, Hpl. run_binds.
    destruct (negb (fst (calculate_intersection _ _ _ _ _ _ _ _ _) =? 0))
      eqn:Hflag.
    + exists true. split; [reflexivity |]. split; [intros _ | reflexivity].
      exists (Z.of_nat k), pk, pl. split; [lia |].
      split; [exact Hpk |]. split; [exact Hpl |].
      now apply flag_test.
    + next_index k.
      destruct (IH (S k)) as (b & Hb & Hiff); [lia |].
      exists b. split; [exact Hb |]. rewrite Hiff. split.
      * intros (k' & qk & ql & Hk' & Hqk & Hql & Hall).
        exists k', qk, ql. repeat split; auto; lia.
      * intros (k' & qk & ql & Hk' & Hqk & Hql & Hall).
        destruct (Z.eq_dec k' (Z.of_nat k)) as [-> | Hne].
        -- rewrite Hpk in Hqk. injection Hqk as <-.
           rewrite Hpl in Hql. injection Hql as <-.
           apply flag_test in Hall. congruence.
        -- exists k', qk, ql. repeat split; auto; lia.
Qed.

(** The third stage: the edges [i], ..., [i + n - 1] of [A] against every
    edge of [B]. *)
Lemma edges_loop_spec (n i : nat) :
  Z.of_nat (i + n) <= lenA ->
  exists b,
    edges_loop A lenA B lenB n (Z.of_nat i) = Some b /\
    (b = true <->
     exists i' k pi pj pk pl,
       Z.of_nat i <= i' < Z.of_nat (i + n) /\ 0 <= k < lenB /\
       load A i' = Some pi /\ load A ((i' + 1) mod lenA) = Some pj /\
       load B k = Some pk /\ load B ((k + 1) mod lenB) = Some pl /\
       forall out,
         fst (calculate_intersection
                (Point.x pi) (Point.y pi) (Point.x pj) (Point.y pj)
                (Point.x pk) (Point.y pk) (Point.x pl) (Point.y pl) out) = 1).
Proof.
  revert i. induction n as [| n IH]; intros i Hin.
  - exists false. split; [reflexivity |].
    split; [discriminate | intros (i' & _ & _ & _ & _ & _ & Hi & _); lia].
  - destruct (rem_successor lenA (Z.of_nat i)) as [Hrem Hj]; [lia |].
    destruct (load_in_range A (Z.of_nat i)) as [pi Hpi]; [lia |].
    destruct (load_in_range A ((Z.of_nat i + 1) mod lenA)) as [pj Hpj];
      [lia |].
    cbn [edges_loop]. rewrite Hrem. run_binds.
    destruct (Z.le_gt_cases 0 lenB) as [HposB | HnegB].
    + destruct (edge_loop_spec _ _ pi pj (Z.to_nat lenB) 0 Hpi Hpj)
        as (e & He & Heiff); [lia |].
      change (Z.of_nat 0) with 0 in He, Heiff. rewrite He.
      run_binds. destruct e.
      * exists true. split; [reflexivity |]. split; [intros _ | reflexivity].
        destruct Heiff as [Hex _].
        destruct (Hex eq_refl) as (k & pk & pl & Hk & Hpk & Hpl & Hall).
        exists (Z.of_nat i), k, pi, pj, pk, pl.
        repeat split; auto; lia.
      * next_index i.
        destruct (IH (S i)) as (b & Hb & Hiff); [lia |].
        exists b. split; [exact Hb |]. rewrite Hiff. split.
        -- intros (i' & k & qi & qj & qk & ql & Hi' & Hk & H1 & H2 & H3).
           exists i', k, qi, qj, qk, ql. repeat split; try tauto; lia.
        -- intros (i' & k & qi & qj & qk & ql
                   & Hi' & Hk & H1 & H2 & H3 & H4 & H5).
           destruct (Z.eq_dec i' (Z.of_nat i)) as [-> | Hne].
           ++ rewrite Hpi in H1. injection H1 as <-.
              rewrite Hpj in H2. injection H2 as <-.
              destruct Heiff as [_ Hback]. exfalso.
              assert (false = true); [| discriminate].
              apply Hback. exists k, qk, ql. repeat split; auto; lia.
           ++ exists i', k, qi, qj, qk, ql. repeat split; auto; lia.
    + replace (Z.to_nat lenB) with O by lia.
      cbn [edge_loop mbind option_bind].
      next_index i.
      destruct (IH (S i)) as (b & Hb & Hiff); [lia |].
      exists b. split; [exact Hb |]. rewrite Hiff. split.
      * intros (i' & k & qi & qj & qk & ql & Hi' & Hk & _). lia.
      * intros (i' & k & qi & qj & qk & ql & Hi' & Hk & _). lia.
Qed.

End TwoPolygons.

Lemma vertex_stage (A B : Buffer) (lenA lenB : Z) :
  lenA <= Z.of_nat (length A) -> lenB <= Z.of_nat (length B) ->
  exists b,
    vertex_loop A B lenB (Z.to_nat lenA) 0 = Some b /\
    (b = true <-> vertex_inside A lenA B lenB).
Proof.
  intros HlenA HlenB. unfold vertex_inside.
  destruct (Z.le_gt_cases 0 lenA) as [Hpos | Hneg].
  - destruct (vertex_loop_spec A B lenA lenB HlenA HlenB (Z.to_nat lenA) 0)
      as (b & Hb & Hiff); [lia |].
    exists b. split; [exact Hb |]. rewrite Hiff.
    split; intros (k & p & Hk & H); exists k, p; (split; [lia | exact H]).
  - replace (Z.to_nat lenA) with O by lia. exists false.
    split; [reflexivity |].
    split; [discriminate | intros (k & _ & Hk & _); lia].
Qed.

Lemma edges_stage (A B : Buffer) (lenA lenB : Z) :
  lenA <= Z.of_nat (length A) -> lenB <= Z.of_nat (length B) ->
  exists b,
    edges_loop A lenA B lenB (Z.to_nat lenA) 0 = Some b /\
    (b = true <-> edges_meet A lenA B lenB).
Proof.
  intros HlenA HlenB. unfold edges_meet.
  destruct (Z.le_gt_cases 0 lenA) as [Hpos | Hneg].
  - destruct (edges_loop_spec A B lenA lenB HlenA HlenB (Z.to_nat lenA) 0)
      as (b & Hb & Hiff); [lia |].
    exists b. split; [exact Hb |]. rewrite Hiff.
    split; intros (i & k & pi & pj & pk & pl & Hi & H);
      exists i, k, pi, pj, pk, pl; (split; [lia | exact H]).
  - replace (Z.to_nat lenA) with O by lia. exists false.
    split; [reflexivity |].
    split; [discriminate | intros (i & _ & _ & _ & _ & _ & Hi & _); lia].
Qed.

(** C2: for polygons [A] and [B] of [lenA] and [lenB] vertices,
    [do_polygons_intersect] returns true if and only if (a) some vertex of
    [A] is inside [B] according to [is_point_in_polygon], or (b) some vertex
    of [B] is inside [A], or (c) some edge of [A], from vertex [i] to vertex
    [(i + 1) mod lenA], meets some edge of [B] according to
    [calculate_intersection]; otherwise it returns false. *)
Theorem do_polygons_intersect_iff :
  forall (A B : Buffer) (lenA lenB : Z),
    lenA <= Z.of_nat (length A) -> lenB <= Z.of_nat (length B) ->
    exists b,
      do_polygons_intersect A lenA B lenB = Some b /\
      (b = true <->
       vertex_inside A lenA B lenB \/
       vertex_inside B lenB A lenA \/
       edges_meet A lenA B lenB).
Proof.
  intros A B lenA lenB HlenA HlenB. unfold do_polygons_intersect.
  destruct (vertex_stage A B lenA lenB HlenA HlenB) as (a & -> & Ha).
  run_binds. destruct a.
  { exists true. intuition. }
  destruct (vertex_stage B A lenB lenA HlenB HlenA) as (b & -> & Hb).
  run_binds. destruct b.
  { exists true. intuition. }
  destruct (edges_stage A B lenA lenB HlenA HlenB) as (c & -> & Hc).
  exists c. split; [reflexivity |].
  rewrite Hc. intuition discriminate.
Qed.

Lemma do_polygons_intersect_iff_witness :
  4 <= Z.of_nat (length unit_square) /\
  4 <= Z.of_nat (length (translate 3 0 unit_square)) /\
  exists b,
    do_polygons_intersect unit_square 4 (translate 3 0 unit_square) 4
      = Some b /\
    (b = true <->
     vertex_inside unit_square 4 (translate 3 0 unit_square) 4 \/
     vertex_inside (translate 3 0 unit_square) 4 unit_square 4 \/
     edges_meet unit_square 4 (translate 3 0 unit_square) 4).
Proof.
  assert (HA : 4 <= Z.of_nat (length unit_square))
    by (vm_compute; discriminate).
  assert (HB : 4 <= Z.of_nat (length (translate 3 0 unit_square)))
    by (vm_compute; discriminate).
  split; [exact HA |]. split; [exact HB |].
  exact (do_polygons_intersect_iff
           unit_square (translate 3 0 unit_square) 4 4 HA HB).
Defined.

(** ** Buffers *)

Lemma set_point_in_range (points : Buffer) (index : Z) (x y : float) :
  0 <= index < Z.of_nat (length points) ->
  set_point points index x y
    = Some (<[Z.to_nat index := Point.mk x y]> points).
Proof.
  intros [Hlo Hhi]. unfold set_point.
  destruct (Z.ltb_spec index 0); [lia |].
  destruct (Z.leb_spec (Z.of_nat (length points)) index); [lia |].
  reflexivity.
Qed.

(** The number of cells of the block that a request for [len] points
    gets: [len] modulo [2^28]. *)
Lemma allocated_cells (len : Z) :
  size_t (size_t len * sizeof_Point) / sizeof_Point = len mod 2 ^ 28.
Proof.
  unfold size_t, sizeof_Point.
  change (2 ^ 32) with 4294967296. change (2 ^ 28) with 268435456.
  Z.div_mod_to_equations. lia.
Qed.

Lemma create_point_array_length (malloc : Malloc) (len : Z) :
  length (create_point_array malloc len)
  = match malloc (size_t (size_t len * sizeof_Point)) with
    | None => O
    | Some _ => Z.to_nat (len mod 2 ^ 28)
    end.
Proof.
  unfold create_point_array.
  destruct (malloc _); [| reflexivity].
  now rewrite length_map, length_seq, allocated_cells.
Qed.

(** A request for fewer than [2^28] points that [malloc] grants gets a
    block of as many cells. *)
Lemma create_point_array_granted (malloc : Malloc) (junk : nat -> Point)
    (len : Z) :
  0 <= len < 2 ^ 28 ->
  malloc (len * sizeof_Point) = Some junk ->
  length (create_point_array malloc len) = Z.to_nat len.
Proof.
  intros Hlen Hblock. rewrite create_point_array_length.
  assert (Hsize : size_t (size_t len * sizeof_Point) = len * sizeof_Point).
  { unfold size_t, sizeof_Point in *.
    rewrite (Z.mod_small len) by lia. apply Z.mod_small. lia. }
  rewrite Hsize, Hblock. now rewrite Z.mod_small by lia.
Qed.

(** Writing [pts] behind the cells [written] so far replaces as many of
    the cells that follow. *)
Lemma write_points_app (pts : list (float * float)) :
  forall (written rest : Buffer),
    (length pts <= length rest)%nat ->
    write_points (written ++ rest) (Z.of_nat (length written)) pts
      = Some (written ++ points_of pts ++ drop (length pts) rest).
Proof.
  induction pts as [| [x y] pts IH]; intros written rest Hlen.
  - reflexivity.
  - destruct rest as [| cell rest]; [simpl in Hlen; lia |].
    cbn [write_points].
    rewrite set_point_in_range
      by (rewrite length_app; cbn [length]; lia).
    run_binds.
    rewrite Nat2Z.id, insert_app_r_alt, Nat.sub_diag by lia.
    cbn [insert list_insert].
    replace (written ++ Point.mk x y :: rest)
      with ((written ++ [Point.mk x y]) ++ rest)
      by now rewrite <- app_assoc.
    replace (Z.of_nat (length written) + 1)
      with (Z.of_nat (length (written ++ [Point.mk x y])))
      by (rewrite length_app; cbn [length]; lia).
    rewrite IH by (simpl in Hlen; lia).
    now rewrite <- app_assoc.
Qed.

Lemma write_points_all (cells : Buffer) (pts : list (float * float)) :
  length cells = length pts ->
  write_points cells 0 pts = Some (points_of pts).
Proof.
  intros Hlen.
  pose proof (write_points_app pts [] cells) as H.
  rewrite Hlen in H. specialize (H (Nat.le_refl _)).
  rewrite <- Hlen, drop_ge, app_nil_r in H by lia.
  exact H.
Qed.

(** Through a null pointer, or into a block of no cell, no point can be
    stored. *)
Lemma write_points_nowhere (i : Z) (pts : list (float * float)) :
  pts <> [] -> write_points [] i pts = None.
Proof.
  destruct pts as [| [x y] rest]; [congruence |].
  intros _. cbn [write_points]. unfold set_point. cbn [length].
  destruct (Z.ltb_spec i 0); [reflexivity |].
  destruct (Z.leb_spec (Z.of_nat 0) i); [reflexivity | lia].
Qed.

(** C8: storing [N] coordinate pairs at the indices 0, ..., [N - 1] of a
    buffer of [N] cells, one [set_point] call each, succeeds whatever the
    cells held and leaves the pairs in the buffer, in order; area,
    perimeter, bounding box and point-in-polygon on that buffer with
    length [N] then return, and return what they return on the point
    sequence itself.  [create_point_array] gives such a buffer when [N]
    is below [2^28] and [malloc] grants the request; when [malloc]
    returns a null pointer the first [set_point] call has no defined
    behaviour. *)
Theorem buffer_round_trip :
  forall pts : list (float * float),
    (forall cells : Buffer,
       length cells = length pts ->
       exists points : Buffer,
         write_points cells 0 pts = Some points /\
         length points = length pts /\
         (forall i c, pts !! i = Some c ->
            points !! i = Some (Point.mk (fst c) (snd c))) /\
         (exists area,
            calculate_polygon_area points (Z.of_nat (length pts))
              = Some area /\
            calculate_polygon_area (points_of pts) (Z.of_nat (length pts))
              = Some area) /\
         (exists perimeter,
            calculate_polygon_perimeter points (Z.of_nat (length pts))
              = Some perimeter /\
            calculate_polygon_perimeter (points_of pts)
              (Z.of_nat (length pts)) = Some perimeter) /\
         (forall out, exists box,
            calculate_bounding_box points (Z.of_nat (length pts)) out
              = Some box /\
            calculate_bounding_box (points_of pts) (Z.of_nat (length pts))
              out = Some box) /\
         (forall x y, exists inside,
            is_point_in_polygon x y points (Z.of_nat (length pts))
              = Some inside /\
            is_point_in_polygon x y (points_of pts) (Z.of_nat (length pts))
              = Some inside))
    /\
    (forall (malloc : Malloc) (junk : nat -> Point),
       Z.of_nat (length pts) < 2 ^ 28 ->
       malloc (Z.of_nat (length pts) * sizeof_Point) = Some junk ->
       length (create_point_array malloc (Z.of_nat (length pts)))
         = length pts /\
       write_points (create_point_array malloc (Z.of_nat (length pts))) 0 pts
         = Some (points_of pts))
    /\
    (forall malloc : Malloc,
       malloc (size_t (size_t (Z.of_nat (length pts)) * sizeof_Point))
         = None ->
       pts <> [] ->
       write_points (create_point_array malloc (Z.of_nat (length pts))) 0 pts
         = None).
Proof.
  intros pts.
  assert (Hlen : length (points_of pts) = length pts) by apply length_map.
  split.
  { intros cells Hcells. exists (points_of pts).
    split; [now apply write_points_all |].
    split; [exact Hlen |].
    split.
    { intros i c Hc. unfold points_of. now rewrite list_lookup_fmap, Hc. }
    split.
    { destruct (calculate_polygon_area_fabs
                  (points_of pts) (Z.of_nat (length pts))) as (sum & _ & ->);
        [lia | eauto]. }
    split.
    { destruct (calculate_polygon_perimeter_total
                  (points_of pts) (Z.of_nat (length pts))) as [r ->];
        [lia | eauto]. }
    split.
    { intros out.
      destruct (calculate_bounding_box_total
                  (points_of pts) (Z.of_nat (length pts)) out) as [r ->];
        [lia | eauto]. }
    intros x y. rewrite is_point_in_polygon_count by lia. eauto. }
  split.
  { intros malloc junk Hsmall Hblock.
    assert (Hcells :
      length (create_point_array malloc (Z.of_nat (length pts)))
      = length pts).
    { rewrite (create_point_array_granted malloc junk) by (auto; lia). lia. }
    split; [exact Hcells |]. now apply write_points_all. }
  intros malloc Hnull Hpts. unfold create_point_array. rewrite Hnull.
  now apply write_points_nowhere.
Qed.

(** * Further properties *)

(** ** What the functions read *)

Section Locality.

Variables (points points' : Buffer) (len : Z).
Hypothesis Hagree : agree len points points'.

Lemma rem_in_range (i : Z) (j : Z) :
  0 <= i < len -> C.rem (i + 1) len = Some j -> 0 <= j < len.
Proof.
  intros Hi. unfold C.rem. destruct (Z.eqb_spec len 0); [discriminate |].
  intros [= <-]. apply Z.rem_bound_pos; lia.
Qed.

Lemma is_point_in_polygon_loop_local (x y : float) (n : nat) :
  forall (i j : Z) (inside : bool),
    0 <= i -> i + Z.of_nat n <= len -> 0 <= j < len ->
    is_point_in_polygon_loop x y points n i j inside
    = is_point_in_polygon_loop x y points' n i j inside.
Proof.
  induction n as [| n IH]; intros i j inside Hi Hin Hj; [reflexivity |].
  cbn [is_point_in_polygon_loop].
  rewrite (Hagree i), (Hagree j) by lia.
  destruct (load points' i) as [pi |]; [| reflexivity].
  destruct (load points' j) as [pj |]; [| reflexivity].
  run_binds. apply IH; lia.
Qed.

Lemma is_point_in_polygon_local (x y : float) :
  is_point_in_polygon x y points len = is_point_in_polygon x y points' len.
Proof.
  unfold is_point_in_polygon.
  destruct (Z.to_nat len) as [| n] eqn:Hn; [reflexivity |].
  rewrite <- Hn. apply is_point_in_polygon_loop_local; lia.
Qed.

Lemma calculate_polygon_area_loop_local (n : nat) :
  forall (i : Z) (area : float),
    0 <= i -> i + Z.of_nat n <= len ->
    calculate_polygon_area_loop points len n i area
    = calculate_polygon_area_loop points' len n i area.
Proof.
  induction n as [| n IH]; intros i area Hi Hin; [reflexivity |].
  cbn [calculate_polygon_area_loop].
  destruct (C.rem (i + 1) len) as [j |] eqn:Hj; [| reflexivity].
  apply rem_in_range in Hj; [| lia]. run_binds.
  rewrite (Hagree i), (Hagree j) by lia.
  destruct (load points' i) as [pi |]; [| reflexivity].
  destruct (load points' j) as [pj |]; [| reflexivity].
  run_binds. apply IH; lia.
Qed.

Lemma calculate_polygon_perimeter_loop_local (n : nat) :
  forall (i : Z) (perimeter : float),
    0 <= i -> i + Z.of_nat n <= len ->
    calculate_polygon_perimeter_loop points len n i perimeter
    = calculate_polygon_perimeter_loop points' len n i perimeter.
Proof.
  induction n as [| n IH]; intros i perimeter Hi Hin; [reflexivity |].
  cbn [calculate_polygon_perimeter_loop].
  destruct (C.rem (i + 1) len) as [j |] eqn:Hj; [| reflexivity].
  apply rem_in_range in Hj; [| lia]. run_binds.
  rewrite (Hagree i), (Hagree j) by lia.
  destruct (load points' i) as [pi |]; [| reflexivity].
  destruct (load points' j) as [pj |]; [| reflexivity].
  run_binds. apply IH; lia.
Qed.

Lemma calculate_bounding_box_loop_local (n : nat) :
  forall (i : Z) (out : Box.t),
    0 <= i -> i + Z.of_nat n <= len ->
    calculate_bounding_box_loop points n i out
    = calculate_bounding_box_loop points' n i out.
Proof.
  induction n as [| n IH]; intros i out Hi Hin; [reflexivity |].
  cbn [calculate_bounding_box_loop].
  rewrite (Hagree i) by lia.
  destruct (load points' i) as [p |]; [| reflexivity].
  run_binds. apply IH; lia.
Qed.

Lemma calculate_bounding_box_local (out : Box.t) :
  0 <= len ->
  calculate_bounding_box points len out
  = calculate_bounding_box points' len out.
Proof.
  intros Hlen. unfold calculate_bounding_box.
  destruct (Z.eqb_spec len 0) as [Hz | Hnz]; [reflexivity |].
  rewrite (Hagree 0) by lia.
  destruct (load points' 0) as [p0 |]; [| reflexivity].
  run_binds. apply calculate_bounding_box_loop_local; lia.
Qed.

End Locality.

(** X1: the point test, the area, the perimeter and the bounding box read
    the first [len] cells of the buffer and nothing else: on two buffers
    that agree there they give the same result, out-of-bounds failure
    included. *)
Theorem aggregates_read_within_length :
  forall (points points' : Buffer) (len : Z) (x y : float) (out : Box.t),
    0 <= len -> agree len points points' ->
    is_point_in_polygon x y points len = is_point_in_polygon x y points' len /\
    calculate_polygon_area points len = calculate_polygon_area points' len /\
    calculate_polygon_perimeter points len
      = calculate_polygon_perimeter points' len /\
    calculate_bounding_box points len out
      = calculate_bounding_box points' len out.
Proof.
  intros points points' len x y out Hlen Hagree.
  split; [now apply is_point_in_polygon_local |].
  split.
  { unfold calculate_polygon_area.
    now rewrite (calculate_polygon_area_loop_local points points' len Hagree)
      by lia. }
  split.
  { unfold calculate_polygon_perimeter.
    now rewrite
      (calculate_polygon_perimeter_loop_local points points' len Hagree)
      by lia. }
  now apply calculate_bounding_box_local.
Qed.

Lemma square4_extended : agree 4 square4 (square4 ++ [Point.mk 9 9]).
Proof. intros i Hi. four_cases i; reflexivity. Qed.

Lemma aggregates_read_within_length_witness :
  0 <= 4 /\ agree 4 square4 (square4 ++ [Point.mk 9 9]) /\
  (is_point_in_polygon 2 2 square4 4
   = is_point_in_polygon 2 2 (square4 ++ [Point.mk 9 9]) 4 /\
   calculate_polygon_area square4 4
   = calculate_polygon_area (square4 ++ [Point.mk 9 9]) 4 /\
   calculate_polygon_perimeter square4 4
   = calculate_polygon_perimeter (square4 ++ [Point.mk 9 9]) 4 /\
   calculate_bounding_box square4 4 (Box.mk 0 0 0 0)
   = calculate_bounding_box (square4 ++ [Point.mk 9 9]) 4 (Box.mk 0 0 0 0)).
Proof.
  assert (H0 : 0 <= 4) by (vm_compute; discriminate).
  split; [exact H0 |]. split; [exact square4_extended |].
  exact (aggregates_read_within_length
           square4 (square4 ++ [Point.mk 9 9]) 4 2 2 (Box.mk 0 0 0 0)
           H0 square4_extended).
Defined.

(** ** The order of doubles *)

Lemma SFcompare_refl (s : spec_float) :
  s <> S754_nan -> SFcompare s s = Some Eq.
Proof.
  destruct s as [b | b | | b m e]; intros Hs; try congruence;
    destruct b; cbn; try reflexivity;
    rewrite Z.compare_refl;
    change (Pos.compare_cont Eq m m) with (m ?= m)%positive;
    now rewrite Pos.compare_refl.
Qed.

Lemma is_nan_spec (a : float) :
  is_nan a = true <-> Prim2SF a = S754_nan.
Proof.
  unfold is_nan. rewrite FloatAxioms.eqb_spec, negb_true_iff.
  unfold SFeqb. split.
  - intros H. destruct (Prim2SF a) as [b | b | | b m e] eqn:Ha;
      try reflexivity; rewrite SFcompare_refl in H by discriminate;
      discriminate.
  - now intros ->.
Qed.

Lemma number_spec (a : float) :
  number a = true <-> Prim2SF a <> S754_nan.
Proof.
  unfold number. rewrite negb_true_iff, <- is_nan_spec.
  destruct (is_nan a); intuition congruence.
Qed.

Lemma le_reflexive (a : float) : number a = true -> C.le a a = true.
Proof.
  rewrite number_spec. unfold C.le. rewrite FloatAxioms.leb_spec.
  intros Ha. unfold SFleb. now rewrite SFcompare_refl.
Qed.

Lemma SFcompare_total (a b : spec_float) :
  a <> S754_nan -> b <> S754_nan -> exists c, SFcompare a b = Some c.
Proof.
  destruct a as [sa | sa | | sa ma ea], b as [sb | sb | | sb mb eb];
    intros Ha Hb; try congruence; cbn; eauto.
Qed.

Lemma not_lt_implies_le (a b : float) :
  number a = true -> number b = true -> C.lt a b = false -> C.le b a = true.
Proof.
  rewrite !number_spec. unfold C.lt, C.le.
  rewrite FloatAxioms.ltb_spec, FloatAxioms.leb_spec. intros Ha Hb.
  unfold SFltb, SFleb. rewrite (SFcompare_antisym (Prim2SF a) (Prim2SF b)).
  destruct (SFcompare_total _ _ Ha Hb) as [c ->].
  now destruct c.
Qed.

Lemma lt_implies_le (a b : float) : C.lt a b = true -> C.le a b = true.
Proof.
  unfold C.lt, C.le. rewrite FloatAxioms.ltb_spec, FloatAxioms.leb_spec.
  unfold SFltb, SFleb. now destruct (SFcompare _ _) as [[] |].
Qed.

Lemma lt_number (a b : float) :
  C.lt a b = true -> number a = true /\ number b = true.
Proof.
  unfold C.lt. rewrite FloatAxioms.ltb_spec, !number_spec. unfold SFltb.
  destruct (Prim2SF a), (Prim2SF b); cbn; try discriminate; now split.
Qed.

Lemma SFcompare_trans (a b c : spec_float) (x y : comparison) :
  SFcompare a b = Some x -> SFcompare b c = Some y ->
  x <> Gt -> y <> Gt ->
  exists z, SFcompare a c = Some z /\ z <> Gt /\ (z = Eq -> x = Eq /\ y = Eq).
Proof.
  destruct a as [sa | sa | | sa ma ea], b as [sb | sb | | sb mb eb],
    c as [sc | sc | | sc mc ec]; cbn; try discriminate;
    intros [= <-] [= <-] Hx Hy;
    try (destruct sa; try congruence);
    try (destruct sb; try congruence);
    try (destruct sc; try congruence);
    try (eexists; split; [reflexivity |]; split; [discriminate |];
         try discriminate; now split).
  all: revert Hx Hy.
  all: change (Pos.compare_cont Eq ma mb) with (ma ?= mb)%positive.
  all: change (Pos.compare_cont Eq mb mc) with (mb ?= mc)%positive.
  all: change (Pos.compare_cont Eq ma mc) with (ma ?= mc)%positive.
  all: destruct (Z.compare_spec ea eb), (Z.compare_spec eb ec),
         (Z.compare_spec ea ec); try lia.
  all: try (destruct (Pos.compare_spec ma mb); cbn);
       try (destruct (Pos.compare_spec mb mc); cbn);
       try (destruct (Pos.compare_spec ma mc); cbn).
  all: try lia.
  all: intros Hx Hy; try congruence.
  all: eexists; split; [reflexivity |]; split; [discriminate || congruence |].
  all: try discriminate; try (intros _; split; reflexivity).
Qed.

Lemma SFleb_cases (a b : spec_float) :
  SFleb a b = true <-> exists x, SFcompare a b = Some x /\ x <> Gt.
Proof.
  unfold SFleb. destruct (SFcompare a b) as [[] |]; split;
    try discriminate; eauto; intros (x & [= <-] & Hx); congruence.
Qed.

Lemma SFltb_cases (a b : spec_float) :
  SFltb a b = true <-> SFcompare a b = Some Lt.
Proof.
  unfold SFltb. destruct (SFcompare a b) as [[] |]; split;
    congruence.
Qed.

Lemma le_transitive (a b c : float) :
  C.le a b = true -> C.le b c = true -> C.le a c = true.
Proof.
  unfold C.le. rewrite !FloatAxioms.leb_spec, !SFleb_cases.
  intros (x & Hx & Hx') (y & Hy & Hy').
  destruct (SFcompare_trans _ _ _ _ _ Hx Hy Hx' Hy') as (z & Hz & Hz' & _).
  eauto.
Qed.

Lemma lt_le_transitive (a b c : float) :
  C.lt a b = true -> C.le b c = true -> C.lt a c = true.
Proof.
  unfold C.lt, C.le.
  rewrite !FloatAxioms.ltb_spec, FloatAxioms.leb_spec, !SFltb_cases,
    SFleb_cases.
  intros Hx (y & Hy & Hy').
  destruct (SFcompare_trans _ _ _ _ _ Hx Hy ltac:(discriminate) Hy')
    as (z & Hz & Hz' & Heq).
  rewrite Hz. destruct z; [destruct (Heq eq_refl); discriminate | | congruence].
  reflexivity.
Qed.

(** ** Distances are not negative *)

Lemma binary_round_aux_sign (s : bool) (m e : Z) (l : location) :
  match binary_round_aux prec emax s m e l with
  | S754_nan => True
  | S754_zero s' | S754_infinity s' | S754_finite s' _ _ => s' = s
  end.
Proof.
  unfold binary_round_aux.
  destruct (shr_fexp prec emax m e l) as [mrs e'].
  destruct (shr_fexp prec emax _ e' loc_Exact) as [mrs' e''].
  destruct (shr_m mrs'); [reflexivity | | exact I].
  now destruct (e'' <=? emax - prec).
Qed.

Lemma binary_round_aux_positive (m e : Z) (l : location) :
  not_negative_sf (binary_round_aux prec emax false m e l) = true.
Proof.
  pose proof (binary_round_aux_sign false m e l) as H.
  destruct (binary_round_aux prec emax false m e l); cbn; now subst.
Qed.

Lemma not_negative_sf_order (f : spec_float) :
  not_negative_sf f = true ->
  SFltb f (S754_zero false) = false /\
  (f = S754_nan \/ SFleb (S754_zero false) f = true).
Proof.
  destruct f as [s | s | | s m e]; cbn; intros H;
    try (destruct s; try discriminate);
    cbn; auto.
Qed.

Lemma sqrt_not_negative (v : float) :
  not_negative_sf (Prim2SF (C.sqrt v)) = true.
Proof.
  unfold C.sqrt. rewrite FloatAxioms.sqrt_spec. unfold SF64sqrt, SFsqrt.
  destruct (Prim2SF v) as [s | s | | s m e]; try reflexivity;
    destruct s; try reflexivity.
  destruct (SFsqrt_core_binary prec emax (Z.pos m) e) as [[mz ez] lz].
  apply binary_round_aux_positive.
Qed.

Lemma binary_round_positive (m : positive) (e : Z) :
  not_negative_sf (binary_round prec emax false m e) = true.
Proof.
  unfold binary_round.
  destruct (shl_align m e _) as [mz ez]. apply binary_round_aux_positive.
Qed.

Lemma SFadd_not_negative (a b : spec_float) :
  not_negative_sf a = true -> not_negative_sf b = true ->
  not_negative_sf (SF64add a b) = true.
Proof.
  destruct a as [sa | sa | | sa ma ea], b as [sb | sb | | sb mb eb];
    cbn; intros Ha Hb; try reflexivity; try assumption;
    try (destruct sa, sb; try discriminate; reflexivity).
  destruct sa, sb; try discriminate. unfold SF64add, SFadd.
  cbn [cond_Zopp Z.add binary_normalize]. apply binary_round_positive.
Qed.

Lemma not_negative_of_sf (a : float) :
  not_negative_sf (Prim2SF a) = true -> not_negative a.
Proof.
  intros H. apply not_negative_sf_order in H as [Hlt Hle].
  unfold not_negative, C.lt, C.le.
  rewrite FloatAxioms.ltb_spec, FloatAxioms.leb_spec, Prim2SF_zero, is_nan_spec.
  auto.
Qed.

Lemma euclidean_not_negative (ax ay bx by_ : float) :
  not_negative_sf (Prim2SF (euclidean ax ay bx by_)) = true.
Proof. apply sqrt_not_negative. Qed.

(** X2: whatever the six coordinates, the distance to a segment does not
    compare below zero: it is a NaN, or zero or above. *)
Theorem distance_to_segment_not_negative :
  forall px py vx vy wx wy : float,
    C.lt (distance_to_segment px py vx vy wx wy) 0 = false /\
    (is_nan (distance_to_segment px py vx vy wx wy) = true \/
     C.le 0 (distance_to_segment px py vx vy wx wy) = true).
Proof.
  intros. apply not_negative_of_sf. unfold distance_to_segment.
  destruct (C.eq _ 0); [apply euclidean_not_negative |].
  destruct (C.lt _ 0); [apply euclidean_not_negative |].
  destruct (C.gt _ 1); apply euclidean_not_negative.
Qed.

Lemma calculate_polygon_perimeter_loop_sign (points : Buffer) (len : Z)
    (n : nat) :
  forall (i : Z) (perimeter r : float),
    not_negative_sf (Prim2SF perimeter) = true ->
    calculate_polygon_perimeter_loop points len n i perimeter = Some r ->
    not_negative_sf (Prim2SF r) = true.
Proof.
  induction n as [| n IH]; intros i perimeter r Hacc.
  - cbn. now intros [= <-].
  - cbn [calculate_polygon_perimeter_loop].
    destruct (C.rem (i + 1) len) as [j |]; run_binds; [| discriminate].
    destruct (load points i) as [pi |]; run_binds; [| discriminate].
    destruct (load points j) as [pj |]; run_binds; [| discriminate].
    apply IH.
    rewrite FloatAxioms.add_spec.
    apply SFadd_not_negative; [exact Hacc | apply euclidean_not_negative].
Qed.

(** X3: on a buffer that holds the [len] vertices the perimeter is
    returned, and it does not compare below zero: it is a NaN, or zero or
    above. *)
Theorem calculate_polygon_perimeter_not_negative :
  forall (points : Buffer) (len : Z),
    len <= Z.of_nat (length points) ->
    exists perimeter,
      calculate_polygon_perimeter points len = Some perimeter /\
      C.lt perimeter 0 = false /\
      (is_nan perimeter = true \/ C.le 0 perimeter = true).
Proof.
  intros points len Hlen.
  destruct (calculate_polygon_perimeter_total points len Hlen) as [r Hr].
  exists r. split; [exact Hr |]. apply not_negative_of_sf.
  unfold calculate_polygon_perimeter in Hr.
  apply (calculate_polygon_perimeter_loop_sign _ _ _ _ 0%float _) in Hr;
    [exact Hr | reflexivity].
Qed.

Lemma calculate_polygon_perimeter_not_negative_witness :
  4 <= Z.of_nat (length square4) /\
  exists perimeter,
    calculate_polygon_perimeter square4 4 = Some perimeter /\
    C.lt perimeter 0 = false /\
    (is_nan perimeter = true \/ C.le 0 perimeter = true).
Proof.
  assert (H : 4 <= Z.of_nat (length square4)) by (vm_compute; discriminate).
  split; [exact H |].
  exact (calculate_polygon_perimeter_not_negative square4 4 H).
Defined.

(** ** The bounding box *)

Lemma bounding_box_step_fields (p : Point) (out : Box.t) :
  Box.minX (bounding_box_step p out)
    = (if C.lt (Point.x p) (Box.minX out) then Point.x p else Box.minX out) /\
  Box.minY (bounding_box_step p out)
    = (if C.lt (Point.y p) (Box.minY out) then Point.y p else Box.minY out) /\
  Box.maxX (bounding_box_step p out)
    = (if C.gt (Point.x p) (Box.maxX out) then Point.x p else Box.maxX out) /\
  Box.maxY (bounding_box_step p out)
    = (if C.gt (Point.y p) (Box.maxY out) then Point.y p else Box.maxY out).
Proof.
  destruct out as [a b c d]. unfold bounding_box_step.
  cbn [Box.minX Box.minY Box.maxX Box.maxY].
  destruct (C.lt (Point.x p) a); cbn [Box.minX Box.minY Box.maxX Box.maxY];
    destruct (C.lt (Point.y p) b); cbn [Box.minX Box.minY Box.maxX Box.maxY];
    destruct (C.gt (Point.x p) c); cbn [Box.minX Box.minY Box.maxX Box.maxY];
    destruct (C.gt (Point.y p) d); cbn; auto.
Qed.

Lemma min_update (m v : float) :
  number m = true -> number v = true ->
  number (if C.lt v m then v else m) = true /\
  C.le (if C.lt v m then v else m) v = true /\
  C.le (if C.lt v m then v else m) m = true.
Proof.
  intros Hm Hv. destruct (C.lt v m) eqn:Hlt.
  - split; [exact Hv |].
    split; [now apply le_reflexive | now apply lt_implies_le].
  - split; [exact Hm |].
    split; [now apply not_lt_implies_le | now apply le_reflexive].
Qed.

Lemma max_update (M v : float) :
  number M = true -> number v = true ->
  number (if C.gt v M then v else M) = true /\
  C.le v (if C.gt v M then v else M) = true /\
  C.le M (if C.gt v M then v else M) = true.
Proof.
  intros HM Hv. unfold C.gt. destruct (M <? v)%float eqn:Hlt.
  - split; [exact Hv |].
    split; [now apply le_reflexive | now apply lt_implies_le].
  - split; [exact HM |].
    split; [now apply not_lt_implies_le | now apply le_reflexive].
Qed.

Lemma bounding_box_step_grows (p : Point) (out : Box.t) :
  box_numbers out ->
  number (Point.x p) = true -> number (Point.y p) = true ->
  box_numbers (bounding_box_step p out) /\
  in_box (bounding_box_step p out) p /\
  (forall q, in_box out q -> in_box (bounding_box_step p out) q).
Proof.
  intros (Ha & Hb & Hc & Hd) Hx Hy.
  destruct (bounding_box_step_fields p out) as (Ea & Ec & Eb & Ed).
  destruct (min_update _ _ Ha Hx) as (Na & La & La').
  destruct (max_update _ _ Hb Hx) as (Nb & Lb & Lb').
  destruct (min_update _ _ Hc Hy) as (Nc & Lc & Lc').
  destruct (max_update _ _ Hd Hy) as (Nd & Ld & Ld').
  unfold box_numbers, in_box. rewrite Ea, Eb, Ec, Ed.
  split; [auto |]. split; [auto |].
  intros q (Q1 & Q2 & Q3 & Q4).
  split; [exact (le_transitive _ _ _ La' Q1) |].
  split; [exact (le_transitive _ _ _ Q2 Lb') |].
  split; [exact (le_transitive _ _ _ Lc' Q3) |].
  exact (le_transitive _ _ _ Q4 Ld').
Qed.

Section BoundingBox.

Variables (points : Buffer) (len : Z).
Hypothesis Hlen : len <= Z.of_nat (length points).

Lemma calculate_bounding_box_loop_contains :
  numbers len points ->
  forall (n i : nat) (out : Box.t),
    Z.of_nat (i + n) <= len ->
    box_numbers out ->
    (forall k p, 0 <= k < Z.of_nat i -> load points k = Some p ->
                 in_box out p) ->
    exists box,
      calculate_bounding_box_loop points n (Z.of_nat i) out = Some box /\
      box_numbers box /\
      forall k p, 0 <= k < Z.of_nat (i + n) -> load points k = Some p ->
                  in_box box p.
Proof.
  intros Hnum n. induction n as [| n IH]; intros i out Hin Hout Hall.
  - exists out. split; [reflexivity |]. split; [exact Hout |].
    intros k p Hk. apply Hall. lia.
  - destruct (load_in_range points (Z.of_nat i)) as [p Hp]; [lia |].
    destruct (Hnum (Z.of_nat i) p) as [Hx Hy]; [lia | exact Hp |].
    destruct (bounding_box_step_grows p out Hout Hx Hy) as (Hn' & Hp' & Hold).
    cbn [calculate_bounding_box_loop]. rewrite Hp. run_binds.
    next_index i.
    destruct (IH (S i) (bounding_box_step p out)) as (box & Hbox & Hnb & Hin');
      [lia | exact Hn' | |].
    { intros k q Hk Hq. destruct (Z.eq_dec k (Z.of_nat i)) as [-> | Hne].
      - rewrite Hp in Hq. now injection Hq as <-.
      - apply Hold, (Hall k); [lia | exact Hq]. }
    exists box. split; [exact Hbox |]. split; [exact Hnb |].
    intros k q Hk. apply Hin'. lia.
Qed.

Lemma calculate_bounding_box_loop_attained :
  forall (n i : nat) (out box : Box.t),
    Z.of_nat (i + n) <= len ->
    box_attained (Z.of_nat i) points out ->
    calculate_bounding_box_loop points n (Z.of_nat i) out = Some box ->
    box_attained (Z.of_nat (i + n)) points box.
Proof.
  intros n. induction n as [| n IH]; intros i out box Hin Hout.
  - cbn. intros [= <-]. now replace (i + 0)%nat with i by lia.
  - cbn [calculate_bounding_box_loop].
    destruct (load points (Z.of_nat i)) as [p |] eqn:Hp; run_binds;
      [| discriminate].
    next_index i. intros Hbox.
    replace (i + S n)%nat with (S i + n)%nat by lia.
    apply (IH (S i) (bounding_box_step p out)); [lia | | exact Hbox].
    destruct (bounding_box_step_fields p out) as (Ea & Ec & Eb & Ed).
    destruct Hout as (A & C & B & D).
    unfold box_attained. rewrite Ea, Eb, Ec, Ed. clear Ea Eb Ec Ed.
    repeat split.
    + destruct (C.lt _ _); [exists (Z.of_nat i), p; repeat split; auto; lia |].
      destruct A as (k & q & Hk & Hq & E). exists k, q. repeat split; auto; lia.
    + destruct (C.lt _ _); [exists (Z.of_nat i), p; repeat split; auto; lia |].
      destruct C as (k & q & Hk & Hq & E). exists k, q. repeat split; auto; lia.
    + destruct (C.gt _ _); [exists (Z.of_nat i), p; repeat split; auto; lia |].
      destruct B as (k & q & Hk & Hq & E). exists k, q. repeat split; auto; lia.
    + destruct (C.gt _ _); [exists (Z.of_nat i), p; repeat split; auto; lia |].
      destruct D as (k & q & Hk & Hq & E). exists k, q. repeat split; auto; lia.
Qed.

Lemma calculate_bounding_box_contains_vertices (out : Box.t) :
  0 < len -> numbers len points ->
  exists box,
    calculate_bounding_box points len out = Some box /\
    box_numbers box /\
    forall k p, 0 <= k < len -> load points k = Some p -> in_box box p.
Proof.
  intros Hpos Hnum. unfold calculate_bounding_box.
  destruct (Z.eqb_spec len 0) as [Hz | _]; [lia |].
  destruct (load_in_range points 0) as [p0 Hp0]; [lia |].
  destruct (Hnum 0 p0) as [Hx Hy]; [lia | exact Hp0 |].
  rewrite Hp0. run_binds.
  destruct (calculate_bounding_box_loop_contains Hnum (Z.to_nat (len - 1)) 1
              (Box.mk (Point.x p0) (Point.y p0) (Point.x p0) (Point.y p0)))
    as (box & Hbox & Hnb & Hin).
  - lia.
  - repeat split; assumption.
  - intros k p Hk Hp. assert (k = 0) as -> by lia.
    rewrite Hp0 in Hp. injection Hp as <-.
    repeat split; now apply le_reflexive.
  - exists box. split; [exact Hbox |]. split; [exact Hnb |].
    intros k p Hk. apply Hin. lia.
Qed.

Lemma calculate_bounding_box_attained (out box : Box.t) :
  0 < len ->
  calculate_bounding_box points len out = Some box ->
  box_attained len points box.
Proof.
  intros Hpos. unfold calculate_bounding_box.
  destruct (Z.eqb_spec len 0) as [Hz | _]; [lia |].
  destruct (load points 0) as [p0 |] eqn:Hp0; run_binds; [| discriminate].
  intros Hbox.
  apply (calculate_bounding_box_loop_attained (Z.to_nat (len - 1)) 1) in Hbox.
  - now replace (Z.of_nat (1 + Z.to_nat (len - 1))) with len in Hbox by lia.
  - lia.
  - repeat split; exists 0, p0; repeat split; auto; lia.
Qed.

End BoundingBox.

(** X4: for a polygon of at least one vertex, none of whose coordinates
    is a NaN, the bounding box is returned, every vertex lies in it, and
    its minimum is at most its maximum on both axes. *)
Theorem calculate_bounding_box_encloses :
  forall (points : Buffer) (len : Z) (out : Box.t),
    0 < len <= Z.of_nat (length points) ->
    numbers len points ->
    exists box,
      calculate_bounding_box points len out = Some box /\
      (forall k p, 0 <= k < len -> load points k = Some p -> in_box box p) /\
      C.le (Box.minX box) (Box.maxX box) = true /\
      C.le (Box.minY box) (Box.maxY box) = true.
Proof.
  intros points len out [Hpos Hlen] Hnum.
  destruct (calculate_bounding_box_contains_vertices points len Hlen out
              Hpos Hnum) as (box & Hbox & _ & Hin).
  exists box. split; [exact Hbox |]. split; [exact Hin |].
  destruct (load_in_range points 0) as [p0 Hp0]; [lia |].
  destruct (Hin 0 p0) as (H1 & H2 & H3 & H4); [lia | exact Hp0 |].
  split; eapply le_transitive; eauto.
Qed.

Lemma square4_range : 0 < 4 <= Z.of_nat (length square4).
Proof. split; [reflexivity | vm_compute; discriminate]. Qed.

Lemma square4_numbers : numbers 4 square4.
Proof.
  intros i p Hi Hp.
  four_cases i; vm_compute in Hp; injection Hp as <-; split; reflexivity.
Qed.

Lemma calculate_bounding_box_encloses_witness :
  0 < 4 <= Z.of_nat (length square4) /\ numbers 4 square4 /\
  exists box,
    calculate_bounding_box square4 4 (Box.mk 0 0 0 0) = Some box /\
    (forall k p, 0 <= k < 4 -> load square4 k = Some p -> in_box box p) /\
    C.le (Box.minX box) (Box.maxX box) = true /\
    C.le (Box.minY box) (Box.maxY box) = true.
Proof.
  split; [exact square4_range |]. split; [exact square4_numbers |].
  exact (calculate_bounding_box_encloses
           square4 4 (Box.mk 0 0 0 0) square4_range square4_numbers).
Defined.

(** X5: the bounding box of a polygon of at least one vertex is tight:
    each of its four slots holds the coordinate of one of the vertices. *)
Theorem calculate_bounding_box_tight :
  forall (points : Buffer) (len : Z) (out box : Box.t),
    0 < len ->
    calculate_bounding_box points len out = Some box ->
    box_attained len points box.
Proof.
  intros points len out box Hpos Hbox.
  now apply (calculate_bounding_box_attained points len out box).
Qed.

Lemma calculate_bounding_box_tight_witness :
  0 < 4 /\
  calculate_bounding_box square4 4 (Box.mk 0 0 0 0) = Some (Box.mk 0 0 4 4) /\
  box_attained 4 square4 (Box.mk 0 0 4 4).
Proof.
  assert (H0 : 0 < 4) by reflexivity.
  assert (Hbox : calculate_bounding_box square4 4 (Box.mk 0 0 0 0)
                 = Some (Box.mk 0 0 4 4)) by reflexivity.
  split; [exact H0 |]. split; [exact Hbox |].
  exact (calculate_bounding_box_tight
           square4 4 (Box.mk 0 0 0 0) (Box.mk 0 0 4 4) H0 Hbox).
Defined.

Lemma le_antisymmetric (a b : float) :
  C.le a b = true -> C.le b a = true -> same_number a b.
Proof.
  unfold C.le, same_number, sf_equiv.
  rewrite !FloatAxioms.leb_spec, !SFleb_cases.
  rewrite (SFcompare_antisym (Prim2SF a) (Prim2SF b)).
  intros (x & Hx & Hx') (y & Hy & Hy'). rewrite Hx in Hy.
  injection Hy as <-.
  assert (x = Eq) as -> by (destruct x; cbn in Hy'; congruence).
  clear Hx' Hy'.
  destruct (Prim2SF a) as [sa | sa | | sa ma ea],
    (Prim2SF b) as [sb | sb | | sb mb eb]; cbn in Hx; try discriminate;
    try (right; now split);
    try (destruct sa; discriminate); try (destruct sb; discriminate).
  - left. destruct sa, sb; congruence.
  - left. destruct sa, sb; try discriminate;
      destruct (Z.compare_spec ea eb); try discriminate; subst;
      change (Pos.compare_cont Eq ma mb) with (ma ?= mb)%positive in Hx;
      destruct (Pos.compare_spec ma mb); try discriminate; now subst.
Qed.

Lemma covered_numbers (lenA : Z) (A : Buffer) (lenB : Z) (B : Buffer) :
  covered lenB B lenA A -> numbers lenA A -> numbers lenB B.
Proof.
  intros Hcov Hnum j p Hj Hp.
  destruct (Hcov j p Hj Hp) as (i & Hi & Hpi). eauto.
Qed.

Lemma box_between (lenA : Z) (A : Buffer) (lenB : Z) (B : Buffer)
    (boxA boxB : Box.t) :
  covered lenA A lenB B ->
  box_attained lenA A boxA ->
  (forall k p, 0 <= k < lenB -> load B k = Some p -> in_box boxB p) ->
  C.le (Box.minX boxB) (Box.minX boxA) = true /\
  C.le (Box.minY boxB) (Box.minY boxA) = true /\
  C.le (Box.maxX boxA) (Box.maxX boxB) = true /\
  C.le (Box.maxY boxA) (Box.maxY boxB) = true.
Proof.
  intros Hcov (H1 & H2 & H3 & H4) Hin.
  repeat split.
  - destruct H1 as (i & p & Hi & Hp & ->).
    destruct (Hcov i p Hi Hp) as (j & Hj & Hpj).
    now destruct (Hin j p Hj Hpj) as (? & ? & ? & ?).
  - destruct H2 as (i & p & Hi & Hp & ->).
    destruct (Hcov i p Hi Hp) as (j & Hj & Hpj).
    now destruct (Hin j p Hj Hpj) as (? & ? & ? & ?).
  - destruct H3 as (i & p & Hi & Hp & ->).
    destruct (Hcov i p Hi Hp) as (j & Hj & Hpj).
    now destruct (Hin j p Hj Hpj) as (? & ? & ? & ?).
  - destruct H4 as (i & p & Hi & Hp & ->).
    destruct (Hcov i p Hi Hp) as (j & Hj & Hpj).
    now destruct (Hin j p Hj Hpj) as (? & ? & ? & ?).
Qed.

(** X6: the bounding box depends on the vertices only, not on their
    order or their number of occurrences: two listings of the same
    vertices, none with a NaN coordinate, get boxes whose slots hold the
    same numbers. *)
Theorem calculate_bounding_box_of_vertices :
  forall (A B : Buffer) (lenA lenB : Z) (outA outB : Box.t),
    0 < lenA <= Z.of_nat (length A) ->
    0 < lenB <= Z.of_nat (length B) ->
    numbers lenA A ->
    covered lenA A lenB B -> covered lenB B lenA A ->
    exists boxA boxB,
      calculate_bounding_box A lenA outA = Some boxA /\
      calculate_bounding_box B lenB outB = Some boxB /\
      same_box boxA boxB.
Proof.
  intros A B lenA lenB outA outB [HposA HlenA] [HposB HlenB] Hnum Hab Hba.
  pose proof (covered_numbers lenA A lenB B Hba Hnum) as HnumB.
  destruct (calculate_bounding_box_contains_vertices A lenA HlenA outA
              HposA Hnum) as (boxA & HboxA & _ & HinA).
  destruct (calculate_bounding_box_contains_vertices B lenB HlenB outB
              HposB HnumB) as (boxB & HboxB & _ & HinB).
  exists boxA, boxB. split; [exact HboxA |]. split; [exact HboxB |].
  pose proof (calculate_bounding_box_attained A lenA outA boxA HposA HboxA)
    as HatA.
  pose proof (calculate_bounding_box_attained B lenB outB boxB HposB HboxB)
    as HatB.
  destruct (box_between lenA A lenB B boxA boxB Hab HatA HinB)
    as (P1 & P2 & P3 & P4).
  destruct (box_between lenB B lenA A boxB boxA Hba HatB HinA)
    as (Q1 & Q2 & Q3 & Q4).
  repeat split; now apply le_antisymmetric.
Qed.

Lemma square4_rotated : covered 4 square4 4 (rotate1 square4).
Proof.
  intros i p Hi Hp.
  four_cases i; vm_compute in Hp; injection Hp as <-;
    [exists 3 | exists 0 | exists 1 | exists 2]; split; try lia; reflexivity.
Qed.

Lemma rotated_square4 : covered 4 (rotate1 square4) 4 square4.
Proof.
  intros i p Hi Hp.
  four_cases i; vm_compute in Hp; injection Hp as <-;
    [exists 1 | exists 2 | exists 3 | exists 0]; split; try lia; reflexivity.
Qed.

Lemma rotated_range : 0 < 4 <= Z.of_nat (length (rotate1 square4)).
Proof. split; [reflexivity | vm_compute; discriminate]. Qed.

Lemma calculate_bounding_box_of_vertices_witness :
  0 < 4 <= Z.of_nat (length square4) /\
  0 < 4 <= Z.of_nat (length (rotate1 square4)) /\
  numbers 4 square4 /\
  covered 4 square4 4 (rotate1 square4) /\
  covered 4 (rotate1 square4) 4 square4 /\
  exists boxA boxB,
    calculate_bounding_box square4 4 (Box.mk 0 0 0 0) = Some boxA /\
    calculate_bounding_box (rotate1 square4) 4 (Box.mk 0 0 0 0)
    = Some boxB /\
    same_box boxA boxB.
Proof.
  split; [exact square4_range |]. split; [exact rotated_range |].
  split; [exact square4_numbers |].
  split; [exact square4_rotated |]. split; [exact rotated_square4 |].
  exact (calculate_bounding_box_of_vertices
           square4 (rotate1 square4) 4 4 (Box.mk 0 0 0 0) (Box.mk 0 0 0 0)
           square4_range rotated_range square4_numbers
           square4_rotated rotated_square4).
Defined.

(** ** Where a point can be inside *)

Lemma indices_range (i n : nat) (k : Z) :
  In k (indices i n) -> Z.of_nat i <= k < Z.of_nat (i + n).
Proof.
  unfold indices. rewrite in_map_iff. intros (m & <- & Hm).
  apply in_seq in Hm. lia.
Qed.

Lemma filter_none {A : Type} (f : A -> bool) (l : list A) :
  (forall a, In a l -> f a = false) -> List.filter f l = [].
Proof.
  induction l as [| a l IH]; intros Hf; [reflexivity |].
  cbn. rewrite (Hf a) by now left.
  apply IH. intros b Hb. apply Hf. now right.
Qed.

Lemma lt_nan_l (a b : float) : is_nan a = true -> C.lt a b = false.
Proof.
  rewrite is_nan_spec. unfold C.lt. rewrite FloatAxioms.ltb_spec.
  now intros ->.
Qed.

Lemma gt_nan_r (a b : float) : is_nan b = true -> C.gt a b = false.
Proof. exact (lt_nan_l b a). Qed.

Section Crossings.

Variables (x y : float) (points : Buffer) (len : Z).
Hypothesis Hlen : len <= Z.of_nat (length points).

(** An edge on which the crossing formula holds joins two vertices of the
    polygon. *)
Lemma edge_crossed_vertices (i : Z) :
  0 <= i < len ->
  edge_crossed x y points len i = true ->
  exists pi pj j,
    0 <= j < len /\ load points i = Some pi /\ load points j = Some pj /\
    intersect x y pi pj = true.
Proof.
  intros Hi. unfold edge_crossed.
  pose proof (previous_vertex_range len i Hi) as Hj.
  destruct (load points i) as [pi |]; [| discriminate].
  destruct (load points (previous_vertex len i)) as [pj |] eqn:Hpj;
    [| discriminate].
  intros Hc. now exists pi, pj, (previous_vertex len i).
Qed.

Lemma no_crossing_outside :
  (forall i j pi pj,
     0 <= i < len -> 0 <= j < len ->
     load points i = Some pi -> load points j = Some pj ->
     intersect x y pi pj = false) ->
  is_point_in_polygon x y points len = Some false.
Proof.
  intros Hno. rewrite is_point_in_polygon_count by exact Hlen.
  unfold crossing_count.
  rewrite filter_none; [reflexivity |]. intros i Hi.
  apply indices_range in Hi.
  destruct (edge_crossed x y points len i) eqn:Hc; [| reflexivity].
  apply edge_crossed_vertices in Hc as (pi & pj & j & Hj & Hpi & Hpj & Hc);
    [| lia].
  rewrite (Hno i j pi pj) in Hc; [discriminate | lia | lia | auto | auto].
Qed.

Lemma inside_crossing :
  is_point_in_polygon x y points len = Some true ->
  exists i j pi pj,
    0 <= i < len /\ 0 <= j < len /\
    load points i = Some pi /\ load points j = Some pj /\
    intersect x y pi pj = true.
Proof.
  rewrite is_point_in_polygon_count by exact Hlen. intros [= Hodd].
  unfold crossing_count in Hodd.
  destruct (List.filter _ _) as [| i rest] eqn:Hf; [discriminate |].
  assert (Hi : In i (List.filter (edge_crossed x y points len)
                       (indices 0 (Z.to_nat len))))
    by (rewrite Hf; now left).
  apply filter_In in Hi as [Hi Hc]. apply indices_range in Hi.
  assert (Hr : 0 <= i < len) by lia.
  destruct (edge_crossed_vertices i Hr Hc)
    as (pi & pj & j & Hj & Hpi & Hpj & Hx).
  now exists i, j, pi, pj.
Qed.

End Crossings.

(** X7: a point at a height that no edge straddles is outside: when all
    vertices are above the point's [y], or none is, the test answers
    false. *)
Theorem is_point_in_polygon_level :
  forall (x y : float) (points : Buffer) (len : Z) (side : bool),
    len <= Z.of_nat (length points) ->
    (forall i p, 0 <= i < len -> load points i = Some p ->
       C.gt (Point.y p) y = side) ->
    is_point_in_polygon x y points len = Some false.
Proof.
  intros x y points len side Hlen Hside.
  apply no_crossing_outside; [exact Hlen |].
  intros i j pi pj Hi Hj Hpi Hpj. unfold intersect, C.bool_ne.
  rewrite (Hside i pi Hi Hpi), (Hside j pj Hj Hpj).
  now rewrite xorb_nilpotent.
Qed.

Lemma square4_below :
  forall i p, 0 <= i < 4 -> load square4 i = Some p ->
    C.gt (Point.y p) 10 = false.
Proof.
  intros i p Hi Hp.
  four_cases i; vm_compute in Hp; injection Hp as <-; reflexivity.
Qed.

Lemma is_point_in_polygon_level_witness :
  4 <= Z.of_nat (length square4) /\
  (forall i p, 0 <= i < 4 -> load square4 i = Some p ->
     C.gt (Point.y p) 10 = false) /\
  is_point_in_polygon 2 10 square4 4 = Some false.
Proof.
  assert (H : 4 <= Z.of_nat (length square4)) by (vm_compute; discriminate).
  split; [exact H |]. split; [exact square4_below |].
  exact (is_point_in_polygon_level 2 10 square4 4 false H square4_below).
Defined.

(** X8: a point with a NaN coordinate is inside no polygon. *)
Theorem is_point_in_polygon_nan :
  forall (x y : float) (points : Buffer) (len : Z),
    len <= Z.of_nat (length points) ->
    is_nan x = true \/ is_nan y = true ->
    is_point_in_polygon x y points len = Some false.
Proof.
  intros x y points len Hlen Hnan.
  apply no_crossing_outside; [exact Hlen |].
  intros i j pi pj _ _ _ _. unfold intersect.
  destruct Hnan as [Hx | Hy].
  - rewrite (lt_nan_l x _ Hx). apply andb_false_r.
  - now rewrite !(gt_nan_r _ y Hy).
Qed.

Lemma is_point_in_polygon_nan_witness :
  4 <= Z.of_nat (length square4) /\
  (is_nan nan = true \/ is_nan 2 = true) /\
  is_point_in_polygon nan 2 square4 4 = Some false.
Proof.
  assert (H : 4 <= Z.of_nat (length square4)) by (vm_compute; discriminate).
  assert (Hnan : is_nan nan = true \/ is_nan 2 = true)
    by (left; reflexivity).
  split; [exact H |]. split; [exact Hnan |].
  exact (is_point_in_polygon_nan nan 2 square4 4 H Hnan).
Defined.

(** X9: the point test and the bounding box agree on heights: a point
    reported inside a polygon without NaN coordinates has its [y] in the
    box, at or above [minY] and strictly below [maxY]. *)
Theorem inside_within_box_height :
  forall (x y : float) (points : Buffer) (len : Z) (out box : Box.t),
    len <= Z.of_nat (length points) ->
    numbers len points ->
    is_point_in_polygon x y points len = Some true ->
    calculate_bounding_box points len out = Some box ->
    C.le (Box.minY box) y = true /\ C.lt y (Box.maxY box) = true.
Proof.
  intros x y points len out box Hlen Hnum Hin Hbox.
  destruct (inside_crossing x y points len Hlen Hin)
    as (i & j & pi & pj & Hi & Hj & Hpi & Hpj & Hx).
  destruct (calculate_bounding_box_contains_vertices points len Hlen out)
    as (box' & Hbox' & _ & Hall); [lia | exact Hnum |].
  rewrite Hbox in Hbox'. injection Hbox' as <-.
  destruct (Hall i pi Hi Hpi) as (_ & _ & Li & Ui).
  destruct (Hall j pj Hj Hpj) as (_ & _ & Lj & Uj).
  destruct (Hnum i pi Hi Hpi) as [_ Ni]. destruct (Hnum j pj Hj Hpj) as [_ Nj].
  unfold intersect, C.bool_ne in Hx.
  apply andb_true_iff in Hx as [Hx _].
  destruct (C.gt (Point.y pi) y) eqn:Hyi, (C.gt (Point.y pj) y) eqn:Hyj;
    try discriminate; unfold C.gt in Hyi, Hyj;
    fold (C.lt y (Point.y pi)) in Hyi; fold (C.lt y (Point.y pj)) in Hyj.
  - destruct (lt_number _ _ Hyi) as [Ny _]. split.
    + exact (le_transitive _ _ _ Lj (not_lt_implies_le _ _ Ny Nj Hyj)).
    + exact (lt_le_transitive _ _ _ Hyi Ui).
  - destruct (lt_number _ _ Hyj) as [Ny _]. split.
    + exact (le_transitive _ _ _ Li (not_lt_implies_le _ _ Ny Ni Hyi)).
    + exact (lt_le_transitive _ _ _ Hyj Uj).
Qed.

Lemma inside_within_box_height_witness :
  4 <= Z.of_nat (length square4) /\ numbers 4 square4 /\
  is_point_in_polygon 2 2 square4 4 = Some true /\
  calculate_bounding_box square4 4 (Box.mk 0 0 0 0) = Some (Box.mk 0 0 4 4) /\
  C.le 0 2 = true /\ C.lt 2 4 = true.
Proof.
  assert (H : 4 <= Z.of_nat (length square4)) by (vm_compute; discriminate).
  assert (Hin : is_point_in_polygon 2 2 square4 4 = Some true)
    by reflexivity.
  assert (Hbox : calculate_bounding_box square4 4 (Box.mk 0 0 0 0)
                 = Some (Box.mk 0 0 4 4)) by reflexivity.
  split; [exact H |]. split; [exact square4_numbers |].
  split; [exact Hin |]. split; [exact Hbox |].
  exact (inside_within_box_height
           2 2 square4 4 (Box.mk 0 0 0 0) (Box.mk 0 0 4 4)
           H square4_numbers Hin Hbox).
Defined.

(** ** Swapping the two segments *)

Lemma binary_round_aux_opp (s : bool) (m e : Z) (l : location) :
  binary_round_aux prec emax (negb s) m e l
  = SFopp (binary_round_aux prec emax s m e l).
Proof.
  unfold binary_round_aux.
  destruct (shr_fexp prec emax m e l) as [mrs e'].
  destruct (shr_fexp prec emax _ e' loc_Exact) as [mrs' e''].
  destruct (shr_m mrs'); [reflexivity | | reflexivity].
  now destruct (e'' <=? emax - prec).
Qed.

Lemma binary_round_opp (m : positive) (e : Z) :
  binary_round prec emax true m e = SFopp (binary_round prec emax false m e).
Proof.
  unfold binary_round. destruct (shl_align m e _) as [mz ez].
  apply (binary_round_aux_opp false).
Qed.

Lemma SFopp_involutive (a : spec_float) : SFopp (SFopp a) = a.
Proof. destruct a as [s | s | | s m e]; cbn; now rewrite ?negb_involutive. Qed.

(** Swapping the operands of a difference negates it, unless it is zero. *)
Lemma SFsub_swap (u v : spec_float) :
  SF64sub v u = SFopp (SF64sub u v) \/
  (is_zero_sf (SF64sub v u) = true /\ is_zero_sf (SF64sub u v) = true).
Proof.
  destruct u as [su | su | | su mu eu], v as [sv | sv | | sv mv ev];
    try (left; reflexivity);
    try (destruct su, sv; (left; reflexivity) || (right; split; reflexivity));
    try (destruct su; left; reflexivity);
    try (destruct sv; left; reflexivity).
  unfold SF64sub, SFsub. rewrite (Z.min_comm ev eu).
  set (X := cond_Zopp su (Z.pos (fst (shl_align mu eu (Z.min eu ev))))).
  set (Y := cond_Zopp sv (Z.pos (fst (shl_align mv ev (Z.min eu ev))))).
  replace (Y - X) with (- (X - Y)) by lia.
  destruct (X - Y) as [| d | d]; cbn [Z.opp binary_normalize].
  - right. now split.
  - left. apply binary_round_opp.
  - left. now rewrite binary_round_opp, SFopp_involutive.
Qed.

Lemma SFeqb_zero_opp (a : spec_float) :
  SFeqb (SFopp a) (S754_zero false) = SFeqb a (S754_zero false).
Proof. rewrite !SFeqb_zero. now destruct a. Qed.

Lemma SFdiv_opp (n d : spec_float) :
  SF64div (SFopp n) (SFopp d) = SF64div n d.
Proof.
  destruct n as [sn | sn | | sn mn en], d as [sd | sd | | sd md ed];
    try reflexivity; cbn; now destruct sn, sd.
Qed.

Lemma SFdiv_zero_equiv (n n' d : spec_float) :
  is_zero_sf n = true -> is_zero_sf n' = true ->
  sf_equiv (SF64div n' (SFopp d)) (SF64div n d).
Proof.
  destruct n as [sn | | |], n' as [sn' | | |]; try discriminate. intros _ _.
  destruct d as [sd | sd | | sd md ed]; cbn;
    try (left; reflexivity); right; now split.
Qed.

Lemma SFleb_equiv_l (a a' b : spec_float) :
  sf_equiv a a' -> SFleb a b = SFleb a' b.
Proof.
  intros [-> | [Ha Ha']]; [reflexivity |].
  destruct a as [s | | |], a' as [s' | | |]; try discriminate.
  destruct b as [sb | sb | | sb mb eb]; reflexivity.
Qed.

Lemma SFleb_equiv_r (a b b' : spec_float) :
  sf_equiv b b' -> SFleb a b = SFleb a b'.
Proof.
  intros [-> | [Hb Hb']]; [reflexivity |].
  destruct b as [s | | |], b' as [s' | | |]; try discriminate.
  destruct a as [sa | sa | | sa ma ea]; reflexivity.
Qed.

Lemma le_same_number_l (a a' b : float) :
  same_number a a' -> C.le a b = C.le a' b.
Proof.
  unfold C.le. rewrite !FloatAxioms.leb_spec. apply SFleb_equiv_l.
Qed.

Lemma le_same_number_r (a b b' : float) :
  same_number b b' -> C.le a b = C.le a b'.
Proof.
  unfold C.le. rewrite !FloatAxioms.leb_spec. apply SFleb_equiv_r.
Qed.

(** [x - y] and [y - x] equal zero together. *)
Lemma eq_zero_swap (x y : float) : C.eq (y - x) 0 = C.eq (x - y) 0.
Proof.
  unfold C.eq.
  rewrite !FloatAxioms.eqb_spec, !FloatAxioms.sub_spec, Prim2SF_zero.
  destruct (SFsub_swap (Prim2SF y) (Prim2SF x)) as [-> | [H1 H2]].
  - now rewrite SFeqb_zero_opp.
  - rewrite !SFeqb_zero. congruence.
Qed.

(** The quotient of two differences does not change, as a number, when the
    operands of both are swapped. *)
Lemma quotient_swap (u v x y : float) :
  C.eq (x - y) 0 = false ->
  same_number ((v - u) / (y - x)) ((u - v) / (x - y)).
Proof.
  unfold C.eq, same_number.
  rewrite FloatAxioms.eqb_spec, !FloatAxioms.div_spec, !FloatAxioms.sub_spec,
    Prim2SF_zero, SFeqb_zero.
  intros Hnz.
  destruct (SFsub_swap (Prim2SF x) (Prim2SF y)) as [Hd | [_ Hz]];
    [| congruence].
  rewrite Hd.
  destruct (SFsub_swap (Prim2SF u) (Prim2SF v)) as [-> | [Hz' Hz]].
  - left. apply SFdiv_opp.
  - now apply SFdiv_zero_equiv.
Qed.

Lemma onSegment_same_number (ax ay bx by_ : float) (s s' : Slots2) :
  same_number (fst s) (fst s') -> same_number (snd s) (snd s') ->
  onSegment ax ay bx by_ s = onSegment ax ay bx by_ s'.
Proof.
  intros Hx Hy. unfold onSegment.
  now rewrite (le_same_number_r _ _ _ Hx), (le_same_number_l _ _ _ Hx),
    (le_same_number_r _ _ _ Hy), (le_same_number_l _ _ _ Hy).
Qed.

Lemma cramer_swap (p1x p1y p2x p2y p3x p3y p4x p4y : float) :
  C.eq (determinant p1x p1y p2x p2y p3x p3y p4x p4y) 0 = false ->
  same_number (fst (cramer p3x p3y p4x p4y p1x p1y p2x p2y))
              (fst (cramer p1x p1y p2x p2y p3x p3y p4x p4y)) /\
  same_number (snd (cramer p3x p3y p4x p4y p1x p1y p2x p2y))
              (snd (cramer p1x p1y p2x p2y p3x p3y p4x p4y)).
Proof.
  unfold cramer, determinant. cbn [fst snd]. intros Hdet.
  split; now apply quotient_swap.
Qed.

Lemma determinant_swap (p1x p1y p2x p2y p3x p3y p4x p4y : float) :
  C.eq (determinant p3x p3y p4x p4y p1x p1y p2x p2y) 0
  = C.eq (determinant p1x p1y p2x p2y p3x p3y p4x p4y) 0.
Proof. unfold determinant. apply eq_zero_swap. Qed.

Lemma calculate_intersection_flag_swap
    (p1x p1y p2x p2y p3x p3y p4x p4y : float) (out out' : Slots2) :
  fst (calculate_intersection p3x p3y p4x p4y p1x p1y p2x p2y out')
  = fst (calculate_intersection p1x p1y p2x p2y p3x p3y p4x p4y out).
Proof.
  unfold calculate_intersection. rewrite determinant_swap.
  destruct (C.eq (determinant p1x p1y p2x p2y p3x p3y p4x p4y) 0) eqn:Hdet;
    [reflexivity |].
  destruct (cramer_swap _ _ _ _ _ _ _ _ Hdet) as [Hx Hy].
  rewrite (onSegment_same_number p3x p3y p4x p4y _ _ Hx Hy),
    (onSegment_same_number p1x p1y p2x p2y _ _ Hx Hy).
  rewrite andb_comm. now destruct (_ && _).
Qed.

(** X10: the order of the two segments does not matter: the flag is the
    same, and when it is 1 the two calls write the same point, up to the
    sign of a zero coordinate. *)
Theorem calculate_intersection_symmetric :
  forall (p1x p1y p2x p2y p3x p3y p4x p4y : float) (out out' : Slots2),
    fst (calculate_intersection p3x p3y p4x p4y p1x p1y p2x p2y out')
    = fst (calculate_intersection p1x p1y p2x p2y p3x p3y p4x p4y out)
    /\
    (fst (calculate_intersection p1x p1y p2x p2y p3x p3y p4x p4y out) = 1 ->
     same_number
       (fst (snd (calculate_intersection
                    p3x p3y p4x p4y p1x p1y p2x p2y out')))
       (fst (snd (calculate_intersection
                    p1x p1y p2x p2y p3x p3y p4x p4y out)))
     /\
     same_number
       (snd (snd (calculate_intersection
                    p3x p3y p4x p4y p1x p1y p2x p2y out')))
       (snd (snd (calculate_intersection
                    p1x p1y p2x p2y p3x p3y p4x p4y out)))).
Proof.
  intros. split; [apply calculate_intersection_flag_swap |].
  intros Hflag. apply calculate_intersection_flag in Hflag as (Hdet & _).
  rewrite (calculate_intersection_slots p1x p1y p2x p2y p3x p3y p4x p4y out)
    by exact Hdet.
  rewrite (calculate_intersection_slots p3x p3y p4x p4y p1x p1y p2x p2y out')
    by (rewrite determinant_swap; exact Hdet).
  now apply cramer_swap.
Qed.

(** ** Degenerate segments *)

Lemma zero_eq (a : float) : zero a = true -> C.eq a 0 = true.
Proof.
  unfold zero, C.eq. rewrite FloatAxioms.eqb_spec, Prim2SF_zero, SFeqb_zero.
  auto.
Qed.

Lemma difference_of_equal (v w : float) :
  finite v = true -> C.eq v w = true ->
  zero (v - w) = true /\ zero (w - v) = true.
Proof.
  unfold finite, C.eq, zero.
  rewrite FloatAxioms.eqb_spec, !FloatAxioms.sub_spec.
  intros Hfin Heq.
  destruct (Prim2SF v) as [s | s | | s m e]; try discriminate;
    destruct (Prim2SF w) as [s' | s' | | s' m' e'];
    try discriminate; try (destruct s; discriminate);
    try (destruct s, s'; discriminate).
  - destruct s, s'; split; reflexivity.
  - apply SFeqb_finite in Heq as (-> & -> & ->).
    now rewrite SFsub_self.
Qed.

Lemma product_zero_l (z f : float) :
  zero z = true -> finite f = true -> zero (z * f) = true.
Proof.
  unfold zero, finite. rewrite FloatAxioms.mul_spec.
  destruct (Prim2SF z) as [s | | |]; try discriminate.
  now destruct (Prim2SF f).
Qed.

Lemma product_zero_r (f z : float) :
  finite f = true -> zero z = true -> zero (f * z) = true.
Proof.
  unfold zero, finite. rewrite FloatAxioms.mul_spec.
  destruct (Prim2SF z) as [s | | |]; try discriminate.
  now destruct (Prim2SF f).
Qed.

Lemma difference_of_zeros (a b : float) :
  zero a = true -> zero b = true -> zero (a - b) = true.
Proof.
  unfold zero. rewrite FloatAxioms.sub_spec.
  destruct (Prim2SF a) as [s | | |]; try discriminate.
  destruct (Prim2SF b) as [s' | | |]; try discriminate.
  now destruct s, s'.
Qed.

(** The difference of a number with itself is a zero or a NaN. *)
Lemma difference_with_itself (q : float) :
  zero (q - q) = true \/ is_nan (q - q) = true.
Proof.
  unfold zero. rewrite is_nan_spec, FloatAxioms.sub_spec.
  destruct (Prim2SF q) as [s | s | | s m e].
  - left. now destruct s.
  - right. now destruct s.
  - now right.
  - left. now rewrite SFsub_self.
Qed.

Lemma quotient_by_nan (n d : float) : is_nan d = true -> is_nan (n / d) = true.
Proof.
  rewrite !is_nan_spec, FloatAxioms.div_spec. intros ->.
  now destruct (Prim2SF n).
Qed.

Lemma le_nan_r (a b : float) : is_nan b = true -> C.le a b = false.
Proof.
  rewrite is_nan_spec. unfold C.le. rewrite FloatAxioms.leb_spec.
  intros ->. now destruct (Prim2SF a).
Qed.

Lemma product_of_zero_l (z f : float) :
  zero z = true -> zero (z * f) = true \/ is_nan (z * f) = true.
Proof.
  unfold zero. rewrite is_nan_spec, FloatAxioms.mul_spec.
  destruct (Prim2SF z) as [s | | |]; try discriminate.
  destruct (Prim2SF f); cbn; auto.
Qed.

Lemma product_of_zero_r (f z : float) :
  zero z = true -> zero (f * z) = true \/ is_nan (f * z) = true.
Proof.
  unfold zero. rewrite is_nan_spec, FloatAxioms.mul_spec.
  destruct (Prim2SF z) as [s | | |]; try discriminate.
  destruct (Prim2SF f); cbn; auto.
Qed.

Lemma difference_zero_or_nan (a b : float) :
  zero a = true \/ is_nan a = true ->
  zero b = true \/ is_nan b = true ->
  zero (a - b) = true \/ is_nan (a - b) = true.
Proof.
  unfold zero. rewrite !is_nan_spec, FloatAxioms.sub_spec.
  intros [Ha | ->] [Hb | ->].
  - left. destruct (Prim2SF a) as [s | | |]; try discriminate.
    destruct (Prim2SF b) as [s' | | |]; try discriminate.
    now destruct s, s'.
  - right. now destruct (Prim2SF a).
  - now right.
  - now right.
Qed.

(** A determinant that is a zero or a NaN gives the flag 0: on a zero the
    function returns at once, on a NaN no quotient passes the range
    check. *)
Lemma calculate_intersection_no_solution
    (p1x p1y p2x p2y p3x p3y p4x p4y : float) (out : Slots2) :
  zero (determinant p1x p1y p2x p2y p3x p3y p4x p4y) = true \/
  is_nan (determinant p1x p1y p2x p2y p3x p3y p4x p4y) = true ->
  fst (calculate_intersection p1x p1y p2x p2y p3x p3y p4x p4y out) = 0.
Proof.
  intros [Hz | Hnan].
  - now rewrite calculate_intersection_parallel by now apply zero_eq.
  - unfold calculate_intersection.
    destruct (C.eq (determinant _ _ _ _ _ _ _ _) 0); [reflexivity |].
    unfold onSegment at 1. unfold cramer at 1. cbn [fst snd].
    rewrite (le_nan_r _ _ (quotient_by_nan _ _ Hnan)). reflexivity.
Qed.

(** X11: a segment whose two endpoints are the same finite point is never
    reported to meet another segment: with it as first or as second
    segment the flag is 0.  The output slots are left alone as well when
    the two coordinate differences of the other segment are finite. *)
Theorem calculate_intersection_degenerate :
  forall (p1x p1y p2x p2y p3x p3y p4x p4y : float) (out : Slots2),
    finite p1x = true -> finite p1y = true ->
    C.eq p1x p2x = true -> C.eq p1y p2y = true ->
    fst (calculate_intersection p1x p1y p2x p2y p3x p3y p4x p4y out) = 0 /\
    fst (calculate_intersection p3x p3y p4x p4y p1x p1y p2x p2y out) = 0 /\
    (finite (p4y - p3y) = true -> finite (p3x - p4x) = true ->
     calculate_intersection p1x p1y p2x p2y p3x p3y p4x p4y out = (0, out) /\
     calculate_intersection p3x p3y p4x p4y p1x p1y p2x p2y out = (0, out)).
Proof.
  intros * Hfx Hfy Hx Hy.
  destruct (difference_of_equal p1x p2x Hfx Hx) as [Hb1 _].
  destruct (difference_of_equal p1y p2y Hfy Hy) as [_ Ha1].
  assert (Hflag :
    fst (calculate_intersection p1x p1y p2x p2y p3x p3y p4x p4y out) = 0).
  { apply calculate_intersection_no_solution.
    unfold determinant, line_a, line_b.
    apply difference_zero_or_nan;
      [now apply product_of_zero_l | now apply product_of_zero_r]. }
  split; [exact Hflag |].
  split; [now rewrite calculate_intersection_flag_swap with (out := out) |].
  intros Ha2 Hb2.
  assert (Hdet : C.eq (determinant p1x p1y p2x p2y p3x p3y p4x p4y) 0 = true).
  { apply zero_eq. unfold determinant, line_a, line_b.
    apply difference_of_zeros;
      [now apply product_zero_l | now apply product_zero_r]. }
  split.
  - now apply calculate_intersection_parallel.
  - apply calculate_intersection_parallel. now rewrite determinant_swap.
Qed.

Lemma calculate_intersection_degenerate_witness :
  finite 5 = true /\ finite 5 = true /\
  C.eq 5 5 = true /\ C.eq 5 5 = true /\
  fst (calculate_intersection 5 5 5 5 0 0 10 10 (7, 8)%float) = 0 /\
  fst (calculate_intersection 0 0 10 10 5 5 5 5 (7, 8)%float) = 0 /\
  (finite (10 - 0) = true -> finite (0 - 10) = true ->
   calculate_intersection 5 5 5 5 0 0 10 10 (7, 8)%float
   = (0, (7, 8)%float) /\
   calculate_intersection 0 0 10 10 5 5 5 5 (7, 8)%float
   = (0, (7, 8)%float)).
Proof.
  assert (H5 : finite 5 = true) by reflexivity.
  assert (He : C.eq 5 5 = true) by reflexivity.
  split; [exact H5 |]. split; [exact H5 |].
  split; [exact He |]. split; [exact He |].
  exact (calculate_intersection_degenerate
           5 5 5 5 0 0 10 10 (7, 8)%float H5 H5 He He).
Defined.

(** X12: a segment does not intersect itself: with the same segment given
    twice the flag is 0, whatever the coordinates. *)
Theorem calculate_intersection_itself :
  forall (p1x p1y p2x p2y : float) (out : Slots2),
    fst (calculate_intersection p1x p1y p2x p2y p1x p1y p2x p2y out) = 0.
Proof.
  intros. unfold calculate_intersection.
  destruct (C.eq (determinant _ _ _ _ _ _ _ _) 0) eqn:Hdet; [reflexivity |].
  assert (Hnan : is_nan (determinant p1x p1y p2x p2y p1x p1y p2x p2y) = true).
  { unfold determinant in *.
    destruct (difference_with_itself (line_a p1y p2y * line_b p1x p2x))
      as [Hz | Hn]; [| exact Hn].
    apply zero_eq in Hz. congruence. }
  unfold onSegment at 1. unfold cramer at 1. cbn [fst snd].
  fold (determinant p1x p1y p2x p2y p1x p1y p2x p2y).
  rewrite (le_nan_r _ _ (quotient_by_nan _ _ Hnan)). reflexivity.
Qed.

(** ** Polygon intersection: symmetry and empty polygons *)

(** The three stages of [do_polygons_intersect], put together. *)

Lemma do_polygons_intersect_stages (A B : Buffer) (lenA lenB : Z) :
  lenA <= Z.of_nat (length A) -> lenB <= Z.of_nat (length B) ->
  exists b,
    do_polygons_intersect A lenA B lenB = Some b /\
    (b = true <->
     vertex_inside A lenA B lenB \/
     vertex_inside B lenB A lenA \/
     edges_meet A lenA B lenB).
Proof.
  intros HlenA HlenB. unfold do_polygons_intersect.
  destruct (vertex_stage A B lenA lenB HlenA HlenB) as (a & -> & Ha).
  run_binds. destruct a.
  { exists true. intuition. }
  destruct (vertex_stage B A lenB lenA HlenB HlenA) as (b & -> & Hb).
  run_binds. destruct b.
  { exists true. intuition. }
  destruct (edges_stage A B lenA lenB HlenA HlenB) as (c & -> & Hc).
  exists c. split; [reflexivity |].
  rewrite Hc. intuition discriminate.
Qed.

Lemma edges_meet_swap (A B : Buffer) (lenA lenB : Z) :
  edges_meet A lenA B lenB -> edges_meet B lenB A lenA.
Proof.
  intros (i & k & pi & pj & pk & pl & Hi & Hk & Hpi & Hpj & Hpk & Hpl & Hall).
  exists k, i, pk, pl, pi, pj. repeat split; try assumption; try lia.
  intros out. rewrite <- (Hall out). apply calculate_intersection_flag_swap.
Qed.

Lemma vertex_inside_nonempty (A B : Buffer) (lenA lenB : Z) :
  vertex_inside A lenA B lenB -> 0 < lenA /\ 0 < lenB.
Proof.
  intros (i & p & Hi & _ & Hin). split; [lia |].
  destruct (Z.lt_ge_cases 0 lenB) as [Hpos | Hneg]; [exact Hpos |].
  unfold is_point_in_polygon in Hin.
  replace (Z.to_nat lenB) with O in Hin by lia. discriminate.
Qed.

(** X13: polygon intersection is symmetric: exchanging the two polygons
    does not change the answer. *)
Theorem do_polygons_intersect_symmetric :
  forall (A B : Buffer) (lenA lenB : Z),
    lenA <= Z.of_nat (length A) -> lenB <= Z.of_nat (length B) ->
    do_polygons_intersect A lenA B lenB = do_polygons_intersect B lenB A lenA.
Proof.
  intros A B lenA lenB HlenA HlenB.
  destruct (do_polygons_intersect_stages A B lenA lenB HlenA HlenB)
    as (b & -> & Hb).
  destruct (do_polygons_intersect_stages B A lenB lenA HlenB HlenA)
    as (b' & -> & Hb').
  f_equal. apply eq_true_iff_eq. rewrite Hb, Hb'.
  pose proof (edges_meet_swap A B lenA lenB).
  pose proof (edges_meet_swap B A lenB lenA).
  tauto.
Qed.

Lemma do_polygons_intersect_symmetric_witness :
  4 <= Z.of_nat (length square4) /\
  4 <= Z.of_nat (length unit_square) /\
  do_polygons_intersect square4 4 unit_square 4
  = do_polygons_intersect unit_square 4 square4 4.
Proof.
  assert (HA : 4 <= Z.of_nat (length square4))
    by (vm_compute; discriminate).
  assert (HB : 4 <= Z.of_nat (length unit_square))
    by (vm_compute; discriminate).
  split; [exact HA |]. split; [exact HB |].
  exact (do_polygons_intersect_symmetric square4 unit_square 4 4 HA HB).
Defined.

(** X14: a polygon of no vertex intersects nothing: when either length
    is zero or negative the answer is false. *)
Theorem do_polygons_intersect_empty :
  forall (A B : Buffer) (lenA lenB : Z),
    lenA <= Z.of_nat (length A) -> lenB <= Z.of_nat (length B) ->
    lenA <= 0 \/ lenB <= 0 ->
    do_polygons_intersect A lenA B lenB = Some false.
Proof.
  intros A B lenA lenB HlenA HlenB Hempty.
  destruct (do_polygons_intersect_stages A B lenA lenB HlenA HlenB)
    as (b & -> & Hb).
  f_equal. destruct b; [| reflexivity]. exfalso.
  destruct Hb as [Hb _]. destruct (Hb eq_refl) as [Hv | [Hv | He]].
  - apply vertex_inside_nonempty in Hv. lia.
  - apply vertex_inside_nonempty in Hv. lia.
  - destruct He as (i & k & _ & _ & _ & _ & Hi & Hk & _). lia.
Qed.

Lemma do_polygons_intersect_empty_witness :
  4 <= Z.of_nat (length square4) /\
  0 <= Z.of_nat (length (@nil Point)) /\
  (4 <= 0 \/ 0 <= 0) /\
  do_polygons_intersect square4 4 [] 0 = Some false.
Proof.
  assert (HA : 4 <= Z.of_nat (length square4))
    by (vm_compute; discriminate).
  assert (HB : 0 <= Z.of_nat (length (@nil Point)))
    by (vm_compute; discriminate).
  assert (H0 : 4 <= 0 \/ 0 <= 0)
    by (right; vm_compute; discriminate).
  split; [exact HA |]. split; [exact HB |]. split; [exact H0 |].
  exact (do_polygons_intersect_empty square4 [] 4 0 HA HB H0).
Defined.

Lemma vertex_loop_local (P P' Q Q' : Buffer) (lenP lenQ : Z) (n : nat) :
  agree lenP P P' -> agree lenQ Q Q' ->
  forall i, 0 <= i -> i + Z.of_nat n <= lenP ->
    vertex_loop P Q lenQ n i = vertex_loop P' Q' lenQ n i.
Proof.
  intros HP HQ. induction n as [| n IH]; intros i Hi Hin; [reflexivity |].
  cbn [vertex_loop]. rewrite (HP i) by lia.
  destruct (load P' i) as [p |]; [| reflexivity]. run_binds.
  rewrite (is_point_in_polygon_local Q Q' lenQ HQ).
  destruct (is_point_in_polygon _ _ Q' lenQ) as [[] |]; try reflexivity.
  run_binds. apply IH; lia.
Qed.

Section IntersectLocality.

Variables (A A' B B' : Buffer) (lenA lenB : Z).
Hypothesis HA : agree lenA A A'.
Hypothesis HB : agree lenB B B'.

Lemma edge_loop_local (i j : Z) (n : nat) :
  0 <= i < lenA -> 0 <= j < lenA ->
  forall k, 0 <= k -> k + Z.of_nat n <= lenB ->
    edge_loop A i j B lenB n k = edge_loop A' i j B' lenB n k.
Proof.
  intros Hi Hj. induction n as [| n IH]; intros k Hk Hkn; [reflexivity |].
  cbn [edge_loop].
  destruct (C.rem (k + 1) lenB) as [l |] eqn:Hl; [| reflexivity].
  apply (rem_in_range lenB k) in Hl; [| lia]. run_binds.
  rewrite (HA i), (HA j), (HB k), (HB l) by lia.
  destruct (load A' i) as [pi |]; [| reflexivity].
  destruct (load A' j) as [pj |]; [| reflexivity].
  destruct (load B' k) as [pk |]; [| reflexivity].
  destruct (load B' l) as [pl |]; [| reflexivity].
  run_binds. destruct (negb _); [reflexivity |]. apply IH; lia.
Qed.

Lemma edges_loop_local (n : nat) :
  forall i, 0 <= i -> i + Z.of_nat n <= lenA ->
    edges_loop A lenA B lenB n i = edges_loop A' lenA B' lenB n i.
Proof.
  induction n as [| n IH]; intros i Hi Hin; [reflexivity |].
  cbn [edges_loop].
  destruct (C.rem (i + 1) lenA) as [j |] eqn:Hj; [| reflexivity].
  apply (rem_in_range lenA i) in Hj; [| lia]. run_binds.
  destruct (Z.to_nat lenB) as [| m] eqn:Hm.
  - cbn [edge_loop]. run_binds. apply IH; lia.
  - rewrite <- Hm. rewrite (edge_loop_local i j (Z.to_nat lenB)) by lia.
    destruct (edge_loop A' i j B' lenB (Z.to_nat lenB) 0) as [[] |];
      try reflexivity.
    run_binds. apply IH; lia.
Qed.

End IntersectLocality.

(** X15: polygon intersection reads the first [lenA] cells of one buffer
    and the first [lenB] cells of the other, and nothing else. *)
Theorem do_polygons_intersect_reads_within_length :
  forall (A A' B B' : Buffer) (lenA lenB : Z),
    agree lenA A A' -> agree lenB B B' ->
    do_polygons_intersect A lenA B lenB
    = do_polygons_intersect A' lenA B' lenB.
Proof.
  intros A A' B B' lenA lenB HA HB.
  unfold do_polygons_intersect.
  assert (H1 : vertex_loop A B lenB (Z.to_nat lenA) 0
               = vertex_loop A' B' lenB (Z.to_nat lenA) 0).
  { destruct (Z.to_nat lenA) as [| m] eqn:Hm; [reflexivity |].
    rewrite <- Hm. apply (vertex_loop_local A A' B B' lenA lenB); auto; lia. }
  assert (H2 : vertex_loop B A lenA (Z.to_nat lenB) 0
               = vertex_loop B' A' lenA (Z.to_nat lenB) 0).
  { destruct (Z.to_nat lenB) as [| m] eqn:Hm; [reflexivity |].
    rewrite <- Hm. apply (vertex_loop_local B B' A A' lenB lenA); auto; lia. }
  assert (H3 : edges_loop A lenA B lenB (Z.to_nat lenA) 0
               = edges_loop A' lenA B' lenB (Z.to_nat lenA) 0).
  { destruct (Z.to_nat lenA) as [| m] eqn:Hm; [reflexivity |].
    rewrite <- Hm. apply edges_loop_local; auto; lia. }
  now rewrite H1, H2, H3.
Qed.

(** ** The buffer as a store *)

Lemma set_point_out_of_range (points : Buffer) (index : Z) (x y : float) :
  index < 0 \/ Z.of_nat (length points) <= index ->
  set_point points index x y = None.
Proof.
  intros H. unfold set_point.
  destruct (Z.ltb_spec index 0); [reflexivity |].
  destruct (Z.leb_spec (Z.of_nat (length points)) index); [reflexivity | lia].
Qed.

Lemma unit_square_extended :
  agree 4 unit_square (unit_square ++ [Point.mk 9 9]).
Proof. intros i Hi. four_cases i; reflexivity. Qed.

Lemma square4_itself : agree 4 square4 square4.
Proof. intros i Hi. reflexivity. Qed.

Lemma do_polygons_intersect_reads_within_length_witness :
  agree 4 unit_square (unit_square ++ [Point.mk 9 9]) /\
  agree 4 square4 square4 /\
  do_polygons_intersect unit_square 4 square4 4
  = do_polygons_intersect (unit_square ++ [Point.mk 9 9]) 4 square4 4.
Proof.
  split; [exact unit_square_extended |]. split; [exact square4_itself |].
  exact (do_polygons_intersect_reads_within_length
           unit_square (unit_square ++ [Point.mk 9 9]) square4 square4 4 4
           unit_square_extended square4_itself).
Defined.

Lemma load_set_point (points points' : Buffer) (index : Z) (x y : float) :
  set_point points index x y = Some points' ->
  0 <= index < Z.of_nat (length points) /\
  length points' = length points /\
  load points' index = Some (Point.mk x y) /\
  forall j, j <> index -> load points' j = load points j.
Proof.
  unfold set_point.
  destruct (Z.ltb_spec index 0); [discriminate |].
  destruct (Z.leb_spec (Z.of_nat (length points)) index); [discriminate |].
  cbn [orb]. intros [= <-].
  split; [lia |]. split; [apply length_insert |]. unfold load. split.
  - destruct (Z.ltb_spec index 0); [lia |].
    apply list_lookup_insert_eq. lia.
  - intros j Hj. destruct (Z.ltb_spec j 0); [reflexivity |].
    apply list_lookup_insert_ne. lia.
Qed.

(** X16: a write to a cell of the buffer at or behind the length of the
    polygon is not seen by the point test, the area, the perimeter or the
    bounding box of the polygon. *)
Theorem set_point_beyond_length :
  forall (points points' : Buffer) (len index : Z) (x y px py : float)
         (out : Box.t),
    0 <= len <= index ->
    set_point points index x y = Some points' ->
    is_point_in_polygon px py points' len
    = is_point_in_polygon px py points len /\
    calculate_polygon_area points' len = calculate_polygon_area points len /\
    calculate_polygon_perimeter points' len
    = calculate_polygon_perimeter points len /\
    calculate_bounding_box points' len out
    = calculate_bounding_box points len out.
Proof.
  intros points points' len index x y px py out Hlen Hset.
  apply load_set_point in Hset as (_ & _ & _ & Hother).
  assert (Hagree : agree len points' points)
    by (intros i Hi; apply Hother; lia).
  split; [now apply is_point_in_polygon_local |].
  split.
  { unfold calculate_polygon_area.
    now rewrite (calculate_polygon_area_loop_local points' points len Hagree)
      by lia. }
  split.
  { unfold calculate_polygon_perimeter.
    now rewrite
      (calculate_polygon_perimeter_loop_local points' points len Hagree)
      by lia. }
  apply calculate_bounding_box_local; [exact Hagree | lia].
Qed.

Lemma set_point_beyond_length_witness :
  0 <= 4 <= 4 /\
  set_point (square4 ++ [Point.mk 9 9]) 4 7 7
  = Some (square4 ++ [Point.mk 7 7]) /\
  is_point_in_polygon 2 2 (square4 ++ [Point.mk 7 7]) 4
  = is_point_in_polygon 2 2 (square4 ++ [Point.mk 9 9]) 4 /\
  calculate_polygon_area (square4 ++ [Point.mk 7 7]) 4
  = calculate_polygon_area (square4 ++ [Point.mk 9 9]) 4 /\
  calculate_polygon_perimeter (square4 ++ [Point.mk 7 7]) 4
  = calculate_polygon_perimeter (square4 ++ [Point.mk 9 9]) 4 /\
  calculate_bounding_box (square4 ++ [Point.mk 7 7]) 4 (Box.mk 0 0 0 0)
  = calculate_bounding_box (square4 ++ [Point.mk 9 9]) 4 (Box.mk 0 0 0 0).
Proof.
  assert (H4 : 0 <= 4 <= 4)
    by (split; vm_compute; discriminate).
  assert (Hset : set_point (square4 ++ [Point.mk 9 9]) 4 7 7
                 = Some (square4 ++ [Point.mk 7 7])) by reflexivity.
  split; [exact H4 |]. split; [exact Hset |].
  exact (set_point_beyond_length
           (square4 ++ [Point.mk 9 9]) (square4 ++ [Point.mk 7 7])
           4 4 7 7 2 2 (Box.mk 0 0 0 0) H4 Hset).
Defined.

(** X17: of two writes to the same cell the last one wins, and writes to
    different cells can be exchanged. *)
Theorem set_point_overwrite :
  forall (points : Buffer) (i j : Z) (x y x' y' : float),
    (points1 ← set_point points i x y; set_point points1 i x' y')
      = set_point points i x' y'
    /\
    (i <> j ->
     (points1 ← set_point points i x y; set_point points1 j x' y')
       = (points1 ← set_point points j x' y'; set_point points1 i x y)).
Proof.
  intros. split.
  - destruct (Z.lt_ge_cases i 0) as [Hneg | Hpos];
      [now rewrite !set_point_out_of_range by lia |].
    destruct (Z.lt_ge_cases i (Z.of_nat (length points))) as [Hin | Hout];
      [| now rewrite !set_point_out_of_range by lia].
    rewrite !set_point_in_range by lia. run_binds.
    rewrite set_point_in_range by (rewrite length_insert; lia).
    f_equal. apply list_insert_insert_eq.
  - intros Hij.
    destruct (Z.lt_ge_cases i 0) as [Hi | Hi].
    { rewrite (set_point_out_of_range points i) by lia. run_binds.
      destruct (set_point points j x' y') as [q |] eqn:Hq; run_binds;
        [| reflexivity].
      apply load_set_point in Hq as (_ & Hl & _).
      now rewrite set_point_out_of_range by lia. }
    destruct (Z.lt_ge_cases i (Z.of_nat (length points))) as [Hi' | Hi'].
    2:{ rewrite (set_point_out_of_range points i) by lia. run_binds.
        destruct (set_point points j x' y') as [q |] eqn:Hq; run_binds;
          [| reflexivity].
        apply load_set_point in Hq as (_ & Hl & _).
        now rewrite set_point_out_of_range by lia. }
    destruct (Z.lt_ge_cases j 0) as [Hj | Hj].
    { rewrite (set_point_out_of_range points j) by lia.
      rewrite set_point_in_range by lia. run_binds.
      now rewrite set_point_out_of_range by lia. }
    destruct (Z.lt_ge_cases j (Z.of_nat (length points))) as [Hj' | Hj'].
    2:{ rewrite (set_point_out_of_range points j) by lia.
        rewrite set_point_in_range by lia. run_binds.
        now rewrite set_point_out_of_range by (rewrite length_insert; lia). }
    rewrite !set_point_in_range by lia. run_binds.
    rewrite !set_point_in_range by (rewrite length_insert; lia).
    f_equal. apply list_insert_insert_ne. lia.
Qed.

(** X18: on the array that [create_point_array] returns for [len] points,
    [set_point] is a defined write exactly when [malloc] returned a block
    and the index is at least 0 and below [len] modulo [2^28]: the indices
    [0 .. len - 1] for a request of fewer than [2^28] points; from [2^28]
    points on the size wraps around in [size_t] and the block has no cell
    for the last point asked for. *)
Theorem set_point_allocated :
  forall (malloc : Malloc) (len index : Z) (x y : float),
    ((exists points',
        set_point (create_point_array malloc len) index x y = Some points')
     <->
     (exists junk,
        malloc (size_t (size_t len * sizeof_Point)) = Some junk) /\
     0 <= index < len mod 2 ^ 28)
    /\
    (0 <= len < 2 ^ 28 ->
     forall junk,
       malloc (len * sizeof_Point) = Some junk ->
       (exists points',
          set_point (create_point_array malloc len) index x y = Some points')
       <-> 0 <= index < len)
    /\
    (2 ^ 28 <= len ->
     set_point (create_point_array malloc len) (len - 1) x y = None).
Proof.
  intros malloc len index x y.
  assert (Hmod : 0 <= len mod 2 ^ 28 < 2 ^ 28)
    by (apply Z.mod_pos_bound; lia).
  assert (Hiff :
    (exists points',
       set_point (create_point_array malloc len) index x y = Some points')
    <->
    (exists junk,
       malloc (size_t (size_t len * sizeof_Point)) = Some junk) /\
    0 <= index < len mod 2 ^ 28).
  { split.
    - intros [points' Hs]. apply load_set_point in Hs as (Hi & _).
      rewrite create_point_array_length in Hi.
      destruct (malloc _) as [junk |]; [| cbn in Hi; lia].
      split; [eauto | lia].
    - intros [[junk Hblock] Hi]. rewrite set_point_in_range; [eauto |].
      rewrite create_point_array_length, Hblock. lia. }
  split; [exact Hiff |]. split.
  - intros Hlen junk Hblock. rewrite Hiff.
    assert (Hsize : size_t (size_t len * sizeof_Point) = len * sizeof_Point).
    { unfold size_t, sizeof_Point in *.
      rewrite (Z.mod_small len) by lia. apply Z.mod_small. lia. }
    rewrite Hsize, (Z.mod_small len) by lia.
    split; [tauto | eauto].
  - intros Hlen. apply set_point_out_of_range. right.
    rewrite create_point_array_length.
    destruct (malloc _); [lia | cbn; lia].
Qed.

(** ** A polygon of one vertex *)

Lemma finite_equal_itself (v : float) : finite v = true -> C.eq v v = true.
Proof.
  unfold finite, C.eq. rewrite FloatAxioms.eqb_spec. unfold SFeqb.
  destruct (Prim2SF v) as [s | s | | s m e] eqn:Hv; try discriminate;
    intros _; now rewrite SFcompare_refl.
Qed.

Lemma add_then_subtract (q : float) :
  finite q = true -> (0 + q - q)%float = 0%float.
Proof.
  unfold finite. intros Hq. apply Prim2SF_inj.
  rewrite FloatAxioms.sub_spec, FloatAxioms.add_spec, Prim2SF_zero.
  destruct (Prim2SF q) as [s | s | | s m e]; try discriminate.
  - now destruct s.
  - cbn [SF64add SFadd]. now rewrite SFsub_self.
Qed.

Lemma euclidean_itself (x y : float) :
  finite x = true -> finite y = true -> euclidean x y x y = 0%float.
Proof.
  intros Hx Hy. unfold euclidean.
  rewrite !square_of_difference_zero by auto using finite_equal_itself.
  reflexivity.
Qed.

(** X19: a polygon of one vertex contains no point, and its bounding box
    is that vertex; its perimeter is 0 when the coordinates are finite,
    its area is 0 when the product of the coordinates is finite. *)
Theorem one_vertex_polygon :
  forall (points : Buffer) (p : Point) (x y : float) (out : Box.t),
    load points 0 = Some p ->
    is_point_in_polygon x y points 1 = Some false /\
    calculate_bounding_box points 1 out
      = Some (Box.mk (Point.x p) (Point.y p) (Point.x p) (Point.y p)) /\
    (finite (Point.x p) = true -> finite (Point.y p) = true ->
     calculate_polygon_perimeter points 1 = Some 0%float) /\
    (finite (Point.x p * Point.y p) = true ->
     calculate_polygon_area points 1 = Some 0%float).
Proof.
  intros points p x y out Hp.
  assert (Hrem : C.rem (0 + 1) 1 = Some 0) by reflexivity.
  repeat split.
  - unfold is_point_in_polygon. change (Z.to_nat 1) with 1%nat.
    change (1 - 1) with 0. cbn [is_point_in_polygon_loop].
    rewrite Hp. run_binds.
    unfold intersect, C.bool_ne. now rewrite xorb_nilpotent.
  - unfold calculate_bounding_box. change (1 =? 0) with false. cbv iota.
    rewrite Hp. reflexivity.
  - intros Hx Hy. unfold calculate_polygon_perimeter.
    change (Z.to_nat 1) with 1%nat. cbn [calculate_polygon_perimeter_loop].
    rewrite Hrem. run_binds. rewrite Hp. run_binds.
    now rewrite euclidean_itself.
  - intros Hq. unfold calculate_polygon_area.
    change (Z.to_nat 1) with 1%nat. cbn [calculate_polygon_area_loop].
    rewrite Hrem. run_binds. rewrite Hp. run_binds.
    now rewrite add_then_subtract.
Qed.

Lemma one_vertex_polygon_witness :
  load [Point.mk 3 4] 0 = Some (Point.mk 3 4) /\
  is_point_in_polygon 3 4 [Point.mk 3 4] 1 = Some false /\
  calculate_bounding_box [Point.mk 3 4] 1 (Box.mk 0 0 0 0)
  = Some (Box.mk 3 4 3 4).
Proof.
  assert (H : load [Point.mk 3 4] 0 = Some (Point.mk 3 4)) by reflexivity.
  split; [exact H |].
  pose proof (one_vertex_polygon
                [Point.mk 3 4] (Point.mk 3 4) 3 4 (Box.mk 0 0 0 0) H)
    as (Hin & Hbox & _).
  split; [exact Hin | exact Hbox].
Defined.

(** ** A negative length *)

(** X20: with a negative length no loop runs: no point is inside, the
    area and the perimeter are 0, and the bounding box is the first cell
    of the buffer, which is read (out of bounds when the buffer is
    empty). *)
Theorem negative_length :
  forall (points : Buffer) (len : Z) (x y : float) (out : Box.t),
    len < 0 ->
    is_point_in_polygon x y points len = Some false /\
    calculate_polygon_area points len = Some 0%float /\
    calculate_polygon_perimeter points len = Some 0%float /\
    calculate_bounding_box points len out
      = match points with
        | [] => None
        | p :: _ =>
            Some (Box.mk (Point.x p) (Point.y p) (Point.x p) (Point.y p))
        end.
Proof.
  intros points len x y out Hlen.
  unfold is_point_in_polygon, calculate_polygon_area,
    calculate_polygon_perimeter, calculate_bounding_box.
  replace (Z.to_nat len) with O by lia.
  replace (Z.to_nat (len - 1)) with O by lia.
  destruct (Z.eqb_spec len 0) as [Hz | _]; [lia |].
  repeat split. now destruct points.
Qed.

Lemma negative_length_witness :
  -1 < 0 /\
  is_point_in_polygon 2 2 square4 (-1) = Some false /\
  calculate_polygon_area square4 (-1) = Some 0%float /\
  calculate_polygon_perimeter square4 (-1) = Some 0%float /\
  calculate_bounding_box square4 (-1) (Box.mk 9 9 9 9)
  = Some (Box.mk 0 0 0 0).
Proof.
  assert (H : -1 < 0) by reflexivity.
  split; [exact H |].
  exact (negative_length square4 (-1) 2 2 (Box.mk 9 9 9 9) H).
Defined.

(** ** The starting vertex *)

Lemma load_of_nat (points : Buffer) (i : nat) :
  load points (Z.of_nat i) = points !! i.
Proof.
  unfold load. destruct (Z.ltb_spec (Z.of_nat i) 0); [lia |].
  now rewrite Nat2Z.id.
Qed.

Lemma count_shift (f g : Z -> bool) (m : nat) :
  forall s : nat,
    (forall i, (s <= i < s + m)%nat -> g (Z.of_nat i) = f (Z.of_nat (S i))) ->
    List.length (List.filter g (indices s m))
    = List.length (List.filter f (indices (S s) m)).
Proof.
  induction m as [| m IH]; intros s Hfg; [reflexivity |].
  rewrite !indices_cons. cbn [List.filter].
  rewrite (Hfg s) by lia.
  destruct (f (Z.of_nat (S s))); cbn [List.length];
    rewrite (IH (S s)); try reflexivity; intros i Hi; apply Hfg; lia.
Qed.

Lemma indices_snoc (s m : nat) :
  indices s (S m) = indices s m ++ [Z.of_nat (s + m)].
Proof. unfold indices. now rewrite seq_S, map_app. Qed.

Section Rotation.

Variables (x y : float) (p : Point) (rest : Buffer).

Let len : Z := Z.of_nat (length (p :: rest)).
Let m : nat := length rest.

Lemma previous_vertex_of_nat (i : nat) :
  previous_vertex len (Z.of_nat i)
  = Z.of_nat (match i with O => m | S j => j end).
Proof.
  unfold previous_vertex, len, m. destruct i as [| j].
  - cbn [length]. change (Z.of_nat 0 =? 0) with true. cbv iota. lia.
  - destruct (Z.eqb_spec (Z.of_nat (S j)) 0); lia.
Qed.

(** The edge that ends at vertex [i] of the rotated listing is the edge
    that ends at vertex [i + 1] of the original one. *)
Lemma edge_crossed_rotate_inner (i : nat) :
  (i < m)%nat ->
  edge_crossed x y (rest ++ [p]) len (Z.of_nat i)
  = edge_crossed x y (p :: rest) len (Z.of_nat (S i)).
Proof.
  intros Hi. unfold edge_crossed.
  rewrite !previous_vertex_of_nat, !load_of_nat.
  rewrite lookup_app_l by (fold m; lia). cbn [lookup list_lookup].
  f_equal. destruct i as [| j].
  - rewrite list_lookup_middle by reflexivity.
    destruct (rest !! 0%nat); reflexivity.
  - rewrite lookup_app_l by (fold m; lia). reflexivity.
Qed.

Lemma edge_crossed_rotate_last :
  edge_crossed x y (rest ++ [p]) len (Z.of_nat m)
  = edge_crossed x y (p :: rest) len (Z.of_nat 0).
Proof.
  unfold edge_crossed.
  rewrite !previous_vertex_of_nat, !load_of_nat.
  rewrite list_lookup_middle by reflexivity. cbn [lookup list_lookup].
  destruct m as [| j] eqn:Hm.
  - rewrite list_lookup_middle by (symmetry; exact Hm). reflexivity.
  - rewrite lookup_app_l by (fold m; lia). reflexivity.
Qed.

Lemma crossing_count_rotate :
  crossing_count x y (rest ++ [p]) len = crossing_count x y (p :: rest) len.
Proof.
  unfold crossing_count.
  replace (Z.to_nat len) with (S m) by (unfold len, m; cbn [length]; lia).
  rewrite indices_snoc at 1. rewrite indices_cons.
  rewrite List.filter_app, List.length_app. cbn [List.filter].
  change (0 + m)%nat with m. rewrite edge_crossed_rotate_last.
  rewrite (count_shift (edge_crossed x y (p :: rest) len)
             (edge_crossed x y (rest ++ [p]) len) m 0)
    by (intros i Hi; apply edge_crossed_rotate_inner; lia).
  destruct (edge_crossed x y (p :: rest) len (Z.of_nat 0));
    cbn [List.length]; lia.
Qed.

Lemma is_point_in_polygon_rotate1 :
  is_point_in_polygon x y (rotate1 (p :: rest)) len
  = is_point_in_polygon x y (p :: rest) len.
Proof.
  cbn [rotate1].
  rewrite !is_point_in_polygon_count, crossing_count_rotate;
    [reflexivity | unfold len; lia |].
  unfold len. rewrite length_app. cbn [length]. lia.
Qed.

End Rotation.

Lemma rotate1_length (points : Buffer) :
  length (rotate1 points) = length points.
Proof.
  destruct points as [| p rest]; [reflexivity |].
  cbn [rotate1]. rewrite length_app. cbn [length]. lia.
Qed.

(** X21: the point test does not depend on the vertex the listing starts
    from: listing the polygon from any later vertex on, in the same
    order, gives the same answer. *)
Theorem is_point_in_polygon_rotate :
  forall (x y : float) (points : Buffer) (k : nat),
    length (Nat.iter k rotate1 points) = length points /\
    is_point_in_polygon x y (Nat.iter k rotate1 points)
      (Z.of_nat (length points))
    = is_point_in_polygon x y points (Z.of_nat (length points)).
Proof.
  intros x y points k. induction k as [| k [IHlen IH]];
    [split; reflexivity |].
  change (Nat.iter (S k) rotate1 points)
    with (rotate1 (Nat.iter k rotate1 points)).
  split; [now rewrite rotate1_length |].
  rewrite <- IH, <- IHlen.
  destruct (Nat.iter k rotate1 points) as [| p rest]; [reflexivity |].
  apply is_point_in_polygon_rotate1.
Qed.

(** ** The distance from an endpoint *)

Lemma shr_1_nonneg (mrs : shr_record) :
  0 <= shr_m mrs -> 0 <= shr_m (shr_1 mrs).
Proof.
  destruct mrs as [m r s]. cbn [shr_m]. intros Hm.
  destruct m as [| [p | p |] | p]; cbn; lia.
Qed.

Lemma iter_shr_1_nonneg (p : positive) :
  forall mrs, 0 <= shr_m mrs -> 0 <= shr_m (SpecFloat.iter_pos shr_1 p mrs).
Proof.
  induction p as [p IH | p IH |]; intros mrs Hm; cbn [SpecFloat.iter_pos];
    auto using shr_1_nonneg.
Qed.

Lemma shr_fexp_nonneg (m e : Z) (l : location) :
  0 <= m -> 0 <= shr_m (fst (shr_fexp prec emax m e l)).
Proof.
  intros Hm. unfold shr_fexp, shr.
  assert (Hrec : 0 <= shr_m (shr_record_of_loc m l))
    by now destruct l as [| []].
  destruct (fexp prec emax (Zdigits2 m + e) - e); cbn [fst];
    auto using iter_shr_1_nonneg.
Qed.

Lemma round_nearest_even_nonneg (m : Z) (l : location) :
  0 <= m -> 0 <= round_nearest_even m l.
Proof.
  intros Hm. destruct l as [| []]; cbn [round_nearest_even]; try lia.
  destruct (Z.even m); lia.
Qed.

Lemma binary_round_aux_number (s : bool) (m e : Z) (l : location) :
  0 <= m -> binary_round_aux prec emax s m e l <> S754_nan.
Proof.
  intros Hm. unfold binary_round_aux.
  pose proof (shr_fexp_nonneg m e l Hm) as H1.
  destruct (shr_fexp prec emax m e l) as [mrs e']. cbn [fst] in H1.
  pose proof (shr_fexp_nonneg _ e' loc_Exact
                (round_nearest_even_nonneg _ (loc_of_shr_record mrs) H1)) as H2.
  destruct (shr_fexp prec emax _ e' loc_Exact) as [mrs' e'']. cbn [fst] in H2.
  destruct (shr_m mrs'); [discriminate | | lia].
  now destruct (e'' <=? emax - prec).
Qed.

Lemma binary_round_aux_positive_number (m : positive) (e : Z) (l : location) :
  positive_sf (binary_round_aux prec emax false (Z.pos m) e l) = true.
Proof.
  pose proof (binary_round_aux_sign false (Z.pos m) e l) as Hs.
  pose proof (binary_round_aux_number false (Z.pos m) e l ltac:(lia)) as Hn.
  destruct (binary_round_aux prec emax false (Z.pos m) e l); cbn;
    try congruence; now subst.
Qed.

Lemma binary_round_positive_number (m : positive) (e : Z) :
  positive_sf (binary_round prec emax false m e) = true.
Proof.
  unfold binary_round. destruct (shl_align m e _) as [mz ez].
  apply binary_round_aux_positive_number.
Qed.

Lemma square_positive (a : float) :
  finite a = true -> positive_sf (Prim2SF (C.pow2 a)) = true.
Proof.
  unfold finite, C.pow2. rewrite FloatAxioms.mul_spec.
  destruct (Prim2SF a) as [s | s | | s m e]; try discriminate; intros _.
  - now destruct s.
  - unfold SF64mul, SFmul. rewrite xorb_nilpotent.
    apply binary_round_aux_positive_number.
Qed.

Lemma SFadd_positive (a b : spec_float) :
  positive_sf a = true -> positive_sf b = true ->
  positive_sf (SF64add a b) = true.
Proof.
  destruct a as [sa | sa | | sa ma ea], b as [sb | sb | | sb mb eb];
    cbn; intros Ha Hb; try discriminate; try assumption;
    try (destruct sa, sb; try discriminate; reflexivity).
  destruct sa, sb; try discriminate. unfold SF64add, SFadd.
  cbn [cond_Zopp Z.add binary_normalize].
  apply binary_round_positive_number.
Qed.

Lemma finite_swap (v w : float) :
  finite (w - v) = true -> finite (v - w) = true.
Proof.
  unfold finite. rewrite !FloatAxioms.sub_spec.
  destruct (SFsub_swap (Prim2SF w) (Prim2SF v)) as [Hs | [Hz1 Hz2]].
  - rewrite Hs. now destruct (SF64sub (Prim2SF w) (Prim2SF v)).
  - intros _. now destruct (SF64sub (Prim2SF v) (Prim2SF w)).
Qed.

Lemma sum_of_zeros (a b : float) :
  zero a = true -> zero b = true -> zero (a + b) = true.
Proof.
  unfold zero. rewrite FloatAxioms.add_spec.
  destruct (Prim2SF a) as [s | | |]; try discriminate.
  destruct (Prim2SF b) as [s' | | |]; try discriminate.
  now destruct s, s'.
Qed.

Lemma quotient_of_zero (n d : float) :
  zero n = true -> positive_sf (Prim2SF d) = true -> C.eq d 0 = false ->
  zero (n / d) = true.
Proof.
  unfold zero, C.eq.
  rewrite FloatAxioms.eqb_spec, FloatAxioms.div_spec, Prim2SF_zero, SFeqb_zero.
  destruct (Prim2SF n) as [s | | |]; try discriminate.
  now destruct (Prim2SF d).
Qed.

Lemma zero_between (t : float) :
  zero t = true -> C.lt t 0 = false /\ C.gt t 1 = false.
Proof.
  unfold zero, C.lt, C.gt. rewrite !FloatAxioms.ltb_spec, Prim2SF_zero.
  change (Prim2SF 1) with (S754_finite false 4503599627370496 (-52)).
  now destruct (Prim2SF t).
Qed.

Lemma difference_after_zero (v z : float) :
  finite v = true -> zero z = true -> zero (v - (v + z)) = true.
Proof.
  unfold finite, zero.
  rewrite FloatAxioms.sub_spec, FloatAxioms.add_spec.
  destruct (Prim2SF z) as [sz | | |]; try discriminate.
  destruct (Prim2SF v) as [s | s | | s m e]; try discriminate; intros _ _.
  - now destruct s, sz.
  - cbn [SF64add SFadd]. now rewrite SFsub_self.
Qed.

Lemma square_of_zero (a : float) : zero a = true -> C.pow2 a = 0%float.
Proof.
  unfold zero, C.pow2. intros Ha. apply Prim2SF_inj.
  rewrite FloatAxioms.mul_spec, Prim2SF_zero.
  destruct (Prim2SF a) as [s | | |]; try discriminate. now destruct s.
Qed.

(** X22: the distance from the first endpoint of a segment to the segment
    is exactly 0, for finite coordinates whose differences are finite,
    the segment of no length included. *)
Theorem distance_from_endpoint :
  forall vx vy wx wy : float,
    finite vx = true -> finite vy = true ->
    finite (wx - vx) = true -> finite (wy - vy) = true ->
    distance_to_segment vx vy vx vy wx wy = 0%float.
Proof.
  intros vx vy wx wy Hvx Hvy Hdx Hdy. unfold distance_to_segment.
  destruct (C.eq (segment_l2 vx vy wx wy) 0) eqn:Hl2;
    [now apply euclidean_itself |].
  assert (Hn : zero ((vx - vx) * (wx - vx) + (vy - vy) * (wy - vy)) = true).
  { apply sum_of_zeros; apply product_zero_l; try assumption;
      apply difference_of_equal; auto using finite_equal_itself. }
  assert (Hpos : positive_sf (Prim2SF (segment_l2 vx vy wx wy)) = true).
  { unfold segment_l2. rewrite FloatAxioms.add_spec.
    apply SFadd_positive; apply square_positive; now apply finite_swap. }
  assert (Ht : zero (segment_t vx vy vx vy wx wy (segment_l2 vx vy wx wy))
               = true)
    by now apply quotient_of_zero.
  destruct (zero_between _ Ht) as [-> ->].
  unfold euclidean.
  rewrite !square_of_zero; [reflexivity | |];
    apply difference_after_zero; try assumption;
    now apply product_zero_l.
Qed.

Lemma distance_from_endpoint_witness :
  finite 1 = true /\ finite 2 = true /\
  finite (5 - 1) = true /\ finite (7 - 2) = true /\
  distance_to_segment 1 2 1 2 5 7 = 0%float.
Proof.
  assert (H1 : finite 1 = true) by reflexivity.
  assert (H2 : finite 2 = true) by reflexivity.
  assert (H3 : finite (5 - 1) = true) by reflexivity.
  assert (H4 : finite (7 - 2) = true) by reflexivity.
  split; [exact H1 |]. split; [exact H2 |].
  split; [exact H3 |]. split; [exact H4 |].
  exact (distance_from_endpoint 1 2 5 7 H1 H2 H3 H4).
Defined.

(** ** Two squares *)










(** *** Axis-aligned rectangles *)

Lemma finite_number (a : float) : finite a = true -> is_nan a = false.
Proof.
  unfold finite. destruct (is_nan a) eqn:Hn; [| reflexivity].
  apply is_nan_spec in Hn. now rewrite Hn.
Qed.






















